(** * Cultural Activities Report: the PDF layout engine

    A shallow embedding of [lib/pdf.js] (the [PDFGenerator] class and
    [generateFilename]) together with the constants it reads from
    [config/org.js] and [lib/image.js], the crop that [lib/image.js]
    computes, and the categories of the distribution as [main.js]
    changes them.

    Conventions of the embedding.
    - A JavaScript string is the list of its UTF-16 code units ([jsstring]).
    - A JavaScript number is an exact rational ([Q]): the layout is
      followed in exact arithmetic.  Where a property is about the digits
      of a result, the computation is given over binary64 floats as
      well, which is the arithmetic of the code.
    - The generator object is a record that is passed explicitly; an
      [async] method that can throw returns a [result]. *)

From Stdlib Require Import List Bool ZArith NArith QArith Qround Lia Lqa.
From Stdlib Require Import String Ascii DecimalString.
From Stdlib Require Floats.
Import ListNotations.

(** * JavaScript strings *)

Module JS.

Definition jsstring := list N.

(** A string literal of the source, as code units. *)
Definition lit (s : string) : jsstring :=
  map N_of_ascii (list_ascii_of_string s).

Definition in_range (lo hi c : N) : bool := (N.leb lo c && N.leb c hi)%bool.

(** The characters matched by [\s] (and stripped by [trim]): the
    ECMAScript WhiteSpace and LineTerminator code points. *)
Definition is_space (c : N) : bool :=
  (in_range 9 13 c || N.eqb c 32 || N.eqb c 160 || N.eqb c 5760
   || in_range 8192 8202 c || N.eqb c 8232 || N.eqb c 8233
   || N.eqb c 8239 || N.eqb c 8287 || N.eqb c 12288 || N.eqb c 65279)%bool.

(** A string is truthy when it is not empty. *)
Definition truthy (s : jsstring) : bool :=
  match s with [] => false | _ :: _ => true end.

Fixpoint trimStart (s : jsstring) : jsstring :=
  match s with
  | [] => []
  | c :: t => if is_space c then trimStart t else s
  end.

Definition trimEnd (s : jsstring) : jsstring := rev (trimStart (rev s)).

Definition trim (s : jsstring) : jsstring := trimEnd (trimStart s).

(** [s.split(/\s+/)]: the pieces between maximal runs of whitespace.
    [cur] is the piece being read, reversed; [in_ws] tells that the
    previous character was whitespace, so that a run separates once. *)
Fixpoint split_from (in_ws : bool) (cur : jsstring) (s : jsstring)
  : list jsstring :=
  match s with
  | [] => [rev cur]
  | c :: t =>
      if is_space c
      then if in_ws then split_from true [] t
           else rev cur :: split_from true [] t
      else split_from false (c :: cur) t
  end.

Definition split_ws (s : jsstring) : list jsstring := split_from false [] s.

(** [a === b] on strings. *)
Fixpoint streq (a b : jsstring) : bool :=
  match a, b with
  | [], [] => true
  | x :: a', y :: b' => (N.eqb x y && streq a' b')%bool
  | _, _ => false
  end.

End JS.

Import JS.

(** * generateFilename *)

(** The complement of the class [[^a-zA-Z0-9-_]]. *)
Definition is_filename_char (c : N) : bool :=
  (in_range 97 122 c || in_range 65 90 c || in_range 48 57 c
   || N.eqb c 45 || N.eqb c 95)%bool.

Definition underscore : N := 95%N.

(** [str.replace(/[^a-zA-Z0-9-_]/g, '_')] *)
Definition replace_special (s : jsstring) : jsstring :=
  map (fun c => if is_filename_char c then c else underscore) s.

Definition starts_with_underscore (s : jsstring) : bool :=
  match s with
  | [] => false
  | c :: _ => N.eqb c underscore
  end.

(** [str.replace(/_+/g, '_')]: of a run of underscores only the last is
    kept. *)
Fixpoint collapse_underscores (s : jsstring) : jsstring :=
  match s with
  | [] => []
  | c :: t =>
      if (N.eqb c underscore && starts_with_underscore t)%bool
      then collapse_underscores t
      else c :: collapse_underscores t
  end.

Definition sanitize (s : jsstring) : jsstring :=
  collapse_underscores (replace_special s).

Definition generateFilename (schoolYear instructorName : jsstring)
  : jsstring :=
  let nameParts := split_ws (trim instructorName) in
  let lastPart := last nameParts [] in
  let lastName := if truthy lastPart then lastPart else lit "Unknown" in
  let sanitizedYear := sanitize schoolYear in
  let sanitizedName := sanitize lastName in
  lit "Cultural_Activities_Report_" ++ sanitizedYear ++ lit "_"
    ++ sanitizedName ++ lit ".pdf".

(** * Configuration: [config/org.js] and [lib/image.js] *)

Open Scope Q_scope.

Module RGB.
Record t := mk { r : Q; g : Q; b : Q }.
End RGB.

Record Margins := mkMargins { top : Q; bottom : Q; left : Q; right : Q }.

Module Fonts.
Record t := mk
  { title : Q; heading : Q; subheading : Q; body : Q; caption : Q;
    small : Q }.
End Fonts.

Module Colors.
Record t := mk
  { primary : RGB.t; secondary : RGB.t; accent : RGB.t; lightGray : RGB.t;
    text : RGB.t }.
End Colors.

Module Org.
Record t := mk
  { name : jsstring; address : list jsstring; website : jsstring;
    colors : Colors.t; margins : Margins; fonts : Fonts.t }.
End Org.

Definition ORG_CONFIG : Org.t :=
  {| Org.name := lit "Cordell Hull Foundation";
     Org.address := [lit "1701 Pennsylvania Avenue NW"; lit "Suite 200";
                     lit "Washington, DC 20006"];
     Org.website := lit "www.cordellhullfoundation.org";
     Org.colors :=
       {| Colors.primary := RGB.mk 0.15 0.30 0.55;
          Colors.secondary := RGB.mk 0.40 0.40 0.40;
          Colors.accent := RGB.mk 0.20 0.50 0.30;
          Colors.lightGray := RGB.mk 0.90 0.90 0.90;
          Colors.text := RGB.mk 0.10 0.10 0.10 |};
     Org.margins := {| top := 50; bottom := 50; left := 50; right := 50 |};
     Org.fonts :=
       {| Fonts.title := 20; Fonts.heading := 14; Fonts.subheading := 12;
          Fonts.body := 10; Fonts.caption := 9; Fonts.small := 8 |} |}.

Module IMAGE_CONFIG.
Definition width : Q := 1600.
Definition height : Q := 900.
End IMAGE_CONFIG.

(** Page dimensions (US Letter). *)
Definition PAGE_WIDTH : Q := 612.
Definition PAGE_HEIGHT : Q := 792.

(** * The pdf-lib objects the generator works with *)

Inductive Font := Helvetica | HelveticaBold.

Definition Bytes := list N.

(** An embedded image: what the generator reads of it. *)
Record PDFImage := mkImage { width : Q; height : Q }.

(** What a page has been asked to draw, in the order of the calls. *)
Inductive DrawCmd :=
| drawText_cmd (txt : jsstring) (x y size : Q) (font : Font) (color : RGB.t)
| drawImage_cmd (image : PDFImage) (x y w h : Q)
| drawLine_cmd (x1 y1 x2 y2 thickness : Q) (color : RGB.t)
| drawRectangle_cmd (x y w h : Q) (color : RGB.t).

Definition Page := list DrawCmd.

(** The library and the configuration a generator is built on:
    [font.widthOfTextAtSize], [pdfDoc.embedJpg] and [pdfDoc.embedPng]
    ([None] when the promise is rejected), the conversion of a number to
    a string in a template literal, and [ORG_CONFIG]. *)
Class Runtime := mkRuntime
  { widthOfTextAtSize : Font -> jsstring -> Q -> Q;
    embedJpg : Bytes -> option PDFImage;
    embedPng : Bytes -> option PDFImage;
    numberToString : Q -> jsstring;
    config : Org.t }.

(** * Results of asynchronous methods *)

Inductive result (A : Type) :=
| Ok (a : A)
| Rejected (bytes : Bytes).
Arguments Ok {A} a.
Arguments Rejected {A} bytes.

Definition bind {A B : Type} (m : result A) (k : A -> result B) : result B :=
  match m with
  | Ok a => k a
  | Rejected e => Rejected e
  end.

Notation "x <- m ;; k" := (bind m (fun x => k))
  (at level 61, m at next level, right associativity).

Definition embed (f : Bytes -> option PDFImage) (bytes : Bytes)
  : result PDFImage :=
  match f bytes with
  | Some img => Ok img
  | None => Rejected bytes
  end.

(** [catch m handler]: a [try] block around [m]. *)
Definition catch {A : Type} (m : result A) (handler : Bytes -> result A)
  : result A :=
  match m with
  | Ok a => Ok a
  | Rejected e => handler e
  end.

(** * Comparisons of numbers *)

Definition Qltb (x y : Q) : bool := negb (Qle_bool y x).
Definition Qgtb (x y : Q) : bool := Qltb y x.

(** * Numbers as the code has them: binary64

    The size computation of [drawImage] (see [drawImage_size] below) on
    floats.  A number is truthy when it is neither 0 nor [NaN]. *)

Module Binary64.
Import Floats.

Definition truthy (x : float) : bool :=
  negb (PrimFloat.eqb x 0%float || PrimFloat.is_nan x).

Definition drawImage_size (imageWidth imageHeight maxWidth : float)
  (maxHeight : option float) : float * float :=
  let aspectRatio := PrimFloat.div imageWidth imageHeight in
  let drawWidth := maxWidth in
  let drawHeight := PrimFloat.div drawWidth aspectRatio in
  match maxHeight with
  | Some mh =>
      if (truthy mh && PrimFloat.ltb mh drawHeight)%bool
      then (PrimFloat.mul mh aspectRatio, mh)
      else (drawWidth, drawHeight)
  | None => (drawWidth, drawHeight)
  end.



Set Warnings "-inexact-float".




Set Warnings "+inexact-float".

End Binary64.

(** * The generator *)

(** The state of a generator once [init] has run: the pages of the
    document ([pdfDoc]), of which [currentPage] is the last, and the
    vertical cursor.  Before [init] the document is [null] and every
    method throws; that state is not represented. *)
Record PDFGenerator := mkGen
  { donePages : list Page; currentPage : Page; currentY : Q }.

(** The pages of the document, in order. *)
Definition pages (this : PDFGenerator) : list Page :=
  donePages this ++ [currentPage this].

(** [this.currentPage.drawX(...)] *)
Definition draw (c : DrawCmd) (this : PDFGenerator) : PDFGenerator :=
  {| donePages := donePages this;
     currentPage := currentPage this ++ [c];
     currentY := currentY this |}.

(** [this.currentY -= d] *)
Definition moveDown (d : Q) (this : PDFGenerator) : PDFGenerator :=
  {| donePages := donePages this;
     currentPage := currentPage this;
     currentY := currentY this - d |}.

(** The options object of [drawWrappedText]; an absent field takes its
    default. *)
Module Options.
Record t := mk
  { fontSize : option Q; font : option Font; color : option RGB.t;
    lineHeight : option Q; align : option jsstring }.
Definition none : t := mk None None None None None.
End Options.

(** ** The report *)

Record Category := mkCategory { label : jsstring; percent : Q }.

Record Photo := mkPhoto { blob : Bytes }.

Record Activity := mkActivity
  { date : jsstring; location : jsstring; participants : jsstring;
    typeIndex : Z; medium : jsstring; mediumOther : jsstring;
    foreignCountry : jsstring; foreignSchoolName : jsstring;
    foreignSchoolAddress : jsstring; description : jsstring;
    impact : jsstring; photos : list Photo }.

Record Report := mkReport
  { schoolYear : jsstring; instructorName : jsstring; sevisId : jsstring;
    schoolType : jsstring; headerPhoto : option Photo;
    distribution : option (list Category); activities : list Activity }.

Section Generator.
Context {RT : Runtime}.

Definition margins : Margins := Org.margins config.
Definition colors : Colors.t := Org.colors config.
Definition fonts : Fonts.t := Org.fonts config.
Definition contentWidth : Q := PAGE_WIDTH - left margins - right margins.

(** [init], after the document and the fonts are created. *)
Definition init : PDFGenerator :=
  {| donePages := []; currentPage := [];
     currentY := PAGE_HEIGHT - top margins |}.

Definition addNewPage (this : PDFGenerator) : PDFGenerator :=
  {| donePages := donePages this ++ [currentPage this];
     currentPage := [];
     currentY := PAGE_HEIGHT - top margins |}.

Definition addPageIfNeeded (neededHeight : Q) (this : PDFGenerator)
  : bool * PDFGenerator :=
  if Qltb (currentY this - neededHeight) (bottom margins)
  then (true, addNewPage this)
  else (false, this).

(** ** drawWrappedText *)

Definition or_default {A : Type} (o : option A) (d : A) : A :=
  match o with
  | Some a => a
  | None => d
  end.

(** The loop that breaks the words into lines; the result is [lines]
    after the final push. *)
Fixpoint breakLines (font : Font) (fontSize maxWidth : Q)
  (words : list jsstring) (currentLine : jsstring) : list jsstring :=
  match words with
  | [] => if truthy currentLine then [currentLine] else []
  | word :: rest =>
      let testLine :=
        if truthy currentLine then currentLine ++ lit " " ++ word
        else word in
      let testWidth := widthOfTextAtSize font testLine fontSize in
      if (Qgtb testWidth maxWidth && truthy currentLine)%bool
      then currentLine :: breakLines font fontSize maxWidth rest word
      else breakLines font fontSize maxWidth rest testLine
  end.

Definition wrapLines (font : Font) (fontSize maxWidth : Q) (text : jsstring)
  : list jsstring :=
  breakLines font fontSize maxWidth (split_ws text) [].

(** [Math.floor(availableHeight / actualLineHeight) < 2].  When the line
    height is 0 the quotient is [Infinity], [-Infinity] or [NaN], and of
    these only [-Infinity] is below 2. *)
Definition linesOnCurrentPage_lt_2 (availableHeight actualLineHeight : Q)
  : bool :=
  if Qeq_bool actualLineHeight 0 then Qltb availableHeight 0
  else Z.ltb (Qfloor (availableHeight / actualLineHeight)) 2.

(** The check made once before the lines are drawn. *)
Definition startFreshIfOrphan (totalHeight actualLineHeight : Q)
  (this : PDFGenerator) : PDFGenerator :=
  if Qltb (currentY this - totalHeight) (bottom margins)
  then
    let availableHeight := currentY this - bottom margins in
    if linesOnCurrentPage_lt_2 availableHeight actualLineHeight
    then addNewPage this
    else this
  else this.

(** The body of the loop that draws the lines. *)
Definition drawTextLine (x maxWidth : Q) (font : Font) (fontSize : Q)
  (color : RGB.t) (align : jsstring) (actualLineHeight : Q)
  (this : PDFGenerator) (line : jsstring) : PDFGenerator :=
  let this :=
    if Qltb (currentY this - actualLineHeight) (bottom margins)
    then addNewPage this else this in
  let drawX :=
    if streq align (lit "center")
    then x + (maxWidth - widthOfTextAtSize font line fontSize) / 2
    else if streq align (lit "right")
    then x + maxWidth - widthOfTextAtSize font line fontSize
    else x in
  let this :=
    draw (drawText_cmd line drawX (currentY this - fontSize) fontSize font
            color) this in
  moveDown actualLineHeight this.

(** [text] is [None] when the argument is [undefined] or [null]. *)
Definition drawWrappedText (text : option jsstring) (x maxWidth : Q)
  (options : Options.t) (this : PDFGenerator) : Q * PDFGenerator :=
  let fontSize := or_default (Options.fontSize options) (Fonts.body fonts) in
  let font := or_default (Options.font options) Helvetica in
  let color := or_default (Options.color options) (Colors.text colors) in
  let lineHeight := or_default (Options.lineHeight options) 1.3 in
  let align := or_default (Options.align options) (lit "left") in
  match text with
  | None => (0, this)
  | Some text =>
      if (negb (truthy text) || streq (trim text) [])%bool then (0, this)
      else
        let lines := wrapLines font fontSize maxWidth text in
        let actualLineHeight := fontSize * lineHeight in
        let totalHeight :=
          inject_Z (Z.of_nat (List.length lines)) * actualLineHeight in
        let this := startFreshIfOrphan totalHeight actualLineHeight this in
        let this :=
          fold_left
            (drawTextLine x maxWidth font fontSize color align
               actualLineHeight)
            lines this in
        (totalHeight, this)
  end.

(** ** drawHeading, drawField, drawLine, addSpace, drawTitle *)

Definition drawHeading (text : jsstring) (level : Z) (this : PDFGenerator)
  : PDFGenerator :=
  let fontSize :=
    if Z.eqb level 1 then Fonts.heading fonts else Fonts.subheading fonts in
  let spaceAbove := if Z.eqb level 1 then 20 else 15 in
  let spaceBelow := if Z.eqb level 1 then 10 else 8 in
  let this :=
    snd (addPageIfNeeded (spaceAbove + fontSize + spaceBelow) this) in
  let this := moveDown spaceAbove this in
  let this :=
    draw (drawText_cmd text (left margins) (currentY this - fontSize)
            fontSize HelveticaBold (Colors.primary colors)) this in
  moveDown (fontSize + spaceBelow) this.

Definition drawField (label value : jsstring) (this : PDFGenerator)
  : PDFGenerator :=
  let labelWidth :=
    widthOfTextAtSize HelveticaBold (label ++ lit ": ") (Fonts.body fonts) in
  let lineHeight := Fonts.body fonts * 1.4 in
  let this := snd (addPageIfNeeded lineHeight this) in
  let this :=
    draw (drawText_cmd (label ++ lit ": ") (left margins)
            (currentY this - Fonts.body fonts) (Fonts.body fonts)
            HelveticaBold (Colors.secondary colors)) this in
  let valueX := left margins + labelWidth in
  let valueMaxWidth := contentWidth - labelWidth in
  let valueWidth := widthOfTextAtSize Helvetica value (Fonts.body fonts) in
  if Qle_bool valueWidth valueMaxWidth
  then
    let this :=
      draw (drawText_cmd value valueX (currentY this - Fonts.body fonts)
              (Fonts.body fonts) Helvetica (Colors.text colors)) this in
    moveDown lineHeight this
  else
    let this := moveDown lineHeight this in
    snd (drawWrappedText (Some value) (left margins + 20)
           (contentWidth - 20) Options.none this).

Definition drawLine (this : PDFGenerator) : PDFGenerator :=
  let this := snd (addPageIfNeeded 15 this) in
  let this := moveDown 5 this in
  let this :=
    draw (drawLine_cmd (left margins) (currentY this)
            (PAGE_WIDTH - right margins) (currentY this) 0.5
            (Colors.lightGray colors)) this in
  moveDown 10 this.

Definition addSpace (space : Q) (this : PDFGenerator) : PDFGenerator :=
  moveDown space this.

Definition drawTitle (title : jsstring) (this : PDFGenerator)
  : PDFGenerator :=
  let this := addSpace 10 this in
  let titleWidth :=
    widthOfTextAtSize HelveticaBold title (Fonts.title fonts) in
  let centerX := (PAGE_WIDTH - titleWidth) / 2 in
  let this :=
    draw (drawText_cmd title centerX (currentY this - Fonts.title fonts)
            (Fonts.title fonts) HelveticaBold (Colors.primary colors))
      this in
  moveDown (Fonts.title fonts + 20) this.

(** ** drawImage *)

(** The size [drawImage] gives to an image: [(drawWidth, drawHeight)].
    [maxHeight] is [None] for [null]; the test [maxHeight && ...] also
    fails for a [maxHeight] of 0. *)
Definition drawImage_size (jpgImage : PDFImage) (maxWidth : Q)
  (maxHeight : option Q) : Q * Q :=
  let aspectRatio := width jpgImage / height jpgImage in
  let drawWidth := maxWidth in
  let drawHeight := drawWidth / aspectRatio in
  match maxHeight with
  | Some mh =>
      if (negb (Qeq_bool mh 0) && Qgtb drawHeight mh)%bool
      then (mh * aspectRatio, mh)
      else (drawWidth, drawHeight)
  | None => (drawWidth, drawHeight)
  end.

Definition drawImage (imageBytes : Bytes) (maxWidth : Q)
  (maxHeight : option Q) (this : PDFGenerator) : result (Q * PDFGenerator) :=
  jpgImage <- embed embedJpg imageBytes ;;
  let (drawWidth, drawHeight) := drawImage_size jpgImage maxWidth maxHeight in
  let this := snd (addPageIfNeeded (drawHeight + 10) this) in
  let this :=
    draw (drawImage_cmd jpgImage (left margins) (currentY this - drawHeight)
            drawWidth drawHeight) this in
  let this := moveDown (drawHeight + 10) this in
  Ok (drawHeight + 10, this).

(** ** drawImageGrid *)

(** [columns] is a count; with [columns = 0] the source divides by zero
    and the sizes are infinite, which is not represented. *)
Definition gridImageWidth (columns : Z) (gap : Q) : Q :=
  (contentWidth - gap * (inject_Z columns - 1)) / inject_Z columns.

Definition gridImageHeight (columns : Z) (gap : Q) : Q :=
  gridImageWidth columns gap / (IMAGE_CONFIG.width / IMAGE_CONFIG.height).

(** The inner loop over [rowImages], from index [j]. *)
Fixpoint drawRowImages (imageWidth imageHeight gap : Q)
  (rowImages : list Bytes) (j : Z) (this : PDFGenerator)
  : result PDFGenerator :=
  match rowImages with
  | [] => Ok this
  | bytes :: rest =>
      jpgImage <- embed embedJpg bytes ;;
      let x := left margins + inject_Z j * (imageWidth + gap) in
      let this :=
        draw (drawImage_cmd jpgImage x (currentY this - imageHeight)
                imageWidth imageHeight) this in
      drawRowImages imageWidth imageHeight gap rest (j + 1) this
  end.

(** What is done when a row is complete. *)
Definition drawRow (imageWidth imageHeight gap : Q) (rowImages : list Bytes)
  (this : PDFGenerator) : result PDFGenerator :=
  let rowHeight := imageHeight + gap in
  let this := snd (addPageIfNeeded rowHeight this) in
  this <- drawRowImages imageWidth imageHeight gap rowImages 0 this ;;
  Ok (moveDown rowHeight this).

(** The outer loop: [images] are the images from index [i] on, so that
    [i === images.length - 1] holds when none is left after this one. *)
Fixpoint gridLoop (imageWidth imageHeight gap : Q) (columns : Z)
  (images : list Bytes) (col : Z) (rowImages : list Bytes)
  (this : PDFGenerator) : result PDFGenerator :=
  match images with
  | [] => Ok this
  | image :: rest =>
      let rowImages := rowImages ++ [image] in
      let col := (col + 1)%Z in
      if (Z.eqb col columns || match rest with [] => true | _ => false end)%bool
      then
        this <- drawRow imageWidth imageHeight gap rowImages this ;;
        gridLoop imageWidth imageHeight gap columns rest 0 [] this
      else
        gridLoop imageWidth imageHeight gap columns rest col rowImages this
  end.

Definition drawImageGrid (images : list Bytes) (columns : Z) (gap : Q)
  (this : PDFGenerator) : result PDFGenerator :=
  match images with
  | [] => Ok this
  | _ =>
      let imageWidth := gridImageWidth columns gap in
      let imageHeight := gridImageHeight columns gap in
      gridLoop imageWidth imageHeight gap columns images 0 [] this
  end.

(** ** drawOrgHeader *)

(** The body of the outer [try]: embed the logo, PNG first and JPEG when
    that is rejected, and draw it. *)
Definition drawLogo (logoBytes : Bytes) (this : PDFGenerator)
  : result PDFGenerator :=
  logoImage <- catch (embed embedPng logoBytes)
                 (fun _ => embed embedJpg logoBytes) ;;
  let logoMaxHeight := 60 in
  let logoMaxWidth := 150 in
  let logoAspect := width logoImage / height logoImage in
  let logoWidth := logoMaxWidth in
  let logoHeight := logoWidth / logoAspect in
  let (logoWidth, logoHeight) :=
    if Qgtb logoHeight logoMaxHeight
    then (logoMaxHeight * logoAspect, logoMaxHeight)
    else (logoWidth, logoHeight) in
  Ok (draw (drawImage_cmd logoImage (left margins)
              (currentY this - logoHeight) logoWidth logoHeight) this).

Definition drawAddressLine (rightX : Q) (acc : PDFGenerator * Q)
  (line : jsstring) : PDFGenerator * Q :=
  let (this, textY) := acc in
  let lineWidth := widthOfTextAtSize Helvetica line 9 in
  (draw (drawText_cmd line (rightX - lineWidth) textY 9 Helvetica
           (Colors.secondary colors)) this,
   textY - 12).

Definition drawOrgHeader (logoBytes : option Bytes) (this : PDFGenerator)
  : result PDFGenerator :=
  let headerHeight := 80 in
  this <- match logoBytes with
          | Some bytes => catch (drawLogo bytes this) (fun _ => Ok this)
          | None => Ok this
          end ;;
  let rightX := PAGE_WIDTH - right margins in
  let textY := currentY this - 12 in
  let nameWidth := widthOfTextAtSize HelveticaBold (Org.name config) 11 in
  let this :=
    draw (drawText_cmd (Org.name config) (rightX - nameWidth) textY 11
            HelveticaBold (Colors.primary colors)) this in
  let textY := textY - 14 in
  let (this, textY) :=
    fold_left (drawAddressLine rightX) (Org.address config) (this, textY) in
  let webWidth := widthOfTextAtSize Helvetica (Org.website config) 9 in
  let this :=
    draw (drawText_cmd (Org.website config) (rightX - webWidth) textY 9
            Helvetica (Colors.accent colors)) this in
  let this := moveDown headerHeight this in
  Ok (drawLine this).

(** ** drawDistributionTable *)

(** The body of the loop over the categories; the state of the loop is
    the generator and [col].  ([startY] is assigned and never read.) *)
Definition drawCategory (colWidth rowHeight : Q) (acc : PDFGenerator * Z)
  (cat : Category) : PDFGenerator * Z :=
  let (this, col) := acc in
  if Qeq_bool (percent cat) 0 then (this, col)
  else
    let x := left margins + inject_Z col * colWidth in
    let this :=
      if Qltb (currentY this - rowHeight) (bottom margins)
      then addNewPage this else this in
    let text :=
      label cat ++ lit ": " ++ numberToString (percent cat) ++ lit "%" in
    let this :=
      draw (drawText_cmd text (x + 10) (currentY this - 14)
              (Fonts.body fonts) Helvetica (Colors.text colors)) this in
    let barWidth := (percent cat / 100) * (colWidth - 80) in
    let this :=
      draw (drawRectangle_cmd (x + 10) (currentY this - rowHeight + 2)
              barWidth 4 (Colors.primary colors)) this in
    let col := (col + 1)%Z in
    if Z.eqb col 2 then (moveDown rowHeight this, 0%Z) else (this, col).

Definition drawDistributionTable (categories : list Category)
  (this : PDFGenerator) : PDFGenerator :=
  let this := drawHeading (lit "Student Distribution") 2 this in
  let colWidth := contentWidth / 2 in
  let rowHeight := 20 in
  let (this, col) :=
    fold_left (drawCategory colWidth rowHeight) categories (this, 0%Z) in
  let this := if negb (Z.eqb col 0) then moveDown rowHeight this else this in
  addSpace 10 this.

(** ** drawActivity *)

(** The label of a free-text section or of the photos, drawn at the
    cursor without a check for space. *)
Definition drawLabel (text : jsstring) (this : PDFGenerator) : PDFGenerator :=
  draw (drawText_cmd text (left margins) (currentY this - Fonts.body fonts)
          (Fonts.body fonts) HelveticaBold (Colors.secondary colors)) this.

(** The extra fields of a Virtual Exchange activity. *)
Definition drawExtraFields (activity : Activity) (this : PDFGenerator)
  : PDFGenerator :=
  let mediumDisplay :=
    if streq (medium activity) (lit "Other")
    then lit "Other: " ++ mediumOther activity
    else medium activity in
  let this := drawField (lit "Communication Medium") mediumDisplay this in
  let this := drawField (lit "Foreign Country") (foreignCountry activity)
                this in
  let this := drawField (lit "Foreign School") (foreignSchoolName activity)
                this in
  drawField (lit "School Address") (foreignSchoolAddress activity) this.

(** The third parameter, [config], is not used by the method. *)
Definition drawActivity (activity : Activity) (index : Z)
  (this : PDFGenerator) : result PDFGenerator :=
  let this := addNewPage this in
  let this :=
    drawHeading (lit "Activity #" ++ numberToString (inject_Z index)) 1
      this in
  let this := drawField (lit "Date") (date activity) this in
  let this := drawField (lit "Location") (location activity) this in
  let this := drawField (lit "Participants") (participants activity) this in
  let this :=
    if Z.eqb (typeIndex activity) 1 then drawExtraFields activity this
    else this in
  let this := addSpace 10 this in
  let this := drawLabel (lit "Description:") this in
  let this := moveDown (Fonts.body fonts * 1.5) this in
  let this :=
    snd (drawWrappedText (Some (description activity)) (left margins + 10)
           (contentWidth - 10) Options.none this) in
  let this := addSpace 10 this in
  let this := drawLabel (lit "Estimated Impact:") this in
  let this := moveDown (Fonts.body fonts * 1.5) this in
  let this :=
    snd (drawWrappedText (Some (impact activity)) (left margins + 10)
           (contentWidth - 10) Options.none this) in
  let this := addSpace 15 this in
  this <-
    match photos activity with
    | [] => Ok this
    | _ =>
        let this := drawLabel (lit "Activity Photos:") this in
        let this := moveDown (Fonts.body fonts * 1.5 + 5) this in
        let imageBytes := map blob (photos activity) in
        let columns :=
          if (Z.of_nat (List.length imageBytes) <=? 2)%Z then 1%Z else 2%Z in
        drawImageGrid imageBytes columns 10 this
    end ;;
  Ok (drawLine this).

(** ** generate *)

(** The loop over the activities; [i] is the index of the first of
    [activities]. *)
Fixpoint drawActivities (activities : list Activity) (i : Z)
  (this : PDFGenerator) : result PDFGenerator :=
  match activities with
  | [] => Ok this
  | activity :: rest =>
      this <- drawActivity activity (i + 1) this ;;
      drawActivities rest (i + 1) this
  end.

(** [fetchedHeader] is what the [fetch] of the decorative banner gave:
    [None] when it failed or the response was not ok.  The progress
    callback is informational and is left out.  The result stands for
    the bytes [pdfDoc.save()] returns: the pages of the document. *)
Definition generate (fetchedHeader : option Bytes) (report : Report)
  : result (list Page) :=
  let this := init in
  this <-
    match fetchedHeader with
    | Some headerImageBytes =>
        r <- drawImage headerImageBytes contentWidth (Some 150) this ;;
        Ok (addSpace 10 (snd r))
    | None => Ok this
    end ;;
  let this := drawTitle (lit "Cultural Activities Annual Report") this in
  this <-
    match headerPhoto report with
    | Some photo =>
        r <- drawImage (blob photo) contentWidth (Some 250) this ;;
        Ok (snd r)
    | None => Ok this
    end ;;
  let this := addSpace 10 this in
  let this := drawHeading (lit "General Information") 2 this in
  let this := drawField (lit "School Year") (schoolYear report) this in
  let this := drawField (lit "Instructor Name") (instructorName report)
                this in
  let this := drawField (lit "SEVIS ID") (sevisId report) this in
  let this := drawField (lit "School Type") (schoolType report) this in
  let this := addSpace 15 this in
  let this :=
    match distribution report with
    | Some categories => drawDistributionTable categories this
    | None => this
    end in
  this <- drawActivities (activities report) 0 this ;;
  Ok (pages this).

End Generator.

(** * Vocabulary of the properties *)

Section Vocabulary.
Context {RT : Runtime}.

Definition not_space (c : N) : bool := negb (is_space c).

(** The characters of a string that are not whitespace. *)
Definition visible (s : jsstring) : jsstring := filter not_space s.

(** A line is fine when it fits or is one of the words. *)
Definition fits_or_word (font : Font) (fontSize maxWidth : Q)
  (words : list jsstring) (line : jsstring) : Prop :=
  widthOfTextAtSize font line fontSize <= maxWidth \/ In line words.

(** How the document grows.

    [extends s s']: from [s] to [s'] the completed pages were kept as
    they were, the page that was current received further commands, and
    pages may have been added after it. *)

Inductive extends (s s' : PDFGenerator) : Prop :=
| extends_same (cmds : list DrawCmd) :
    donePages s' = donePages s ->
    currentPage s' = currentPage s ++ cmds ->
    extends s s'
| extends_more (cmds : list DrawCmd) (extra : list Page) :
    donePages s' = donePages s ++ (currentPage s ++ cmds) :: extra ->
    extends s s'.

(** The rows that the outer loop of [drawImageGrid] completes, in order:
    the loop without the drawing. *)
Fixpoint gridRows (columns : Z) (images : list Bytes) (col : Z)
  (rowImages : list Bytes) : list (list Bytes) :=
  match images with
  | [] => []
  | image :: rest =>
      let rowImages := rowImages ++ [image] in
      let col := (col + 1)%Z in
      if (Z.eqb col columns || match rest with [] => true | _ => false end)%bool
      then rowImages :: gridRows columns rest 0 []
      else gridRows columns rest col rowImages
  end.

(** Drawing rows one after the other. *)
Fixpoint drawRows (imageWidth imageHeight gap : Q) (rows : list (list Bytes))
  (this : PDFGenerator) : result PDFGenerator :=
  match rows with
  | [] => Ok this
  | row :: rest =>
      this <- drawRow imageWidth imageHeight gap row this ;;
      drawRows imageWidth imageHeight gap rest this
  end.



(** The draw operations a caller can issue one after the other. *)
Inductive DrawOp :=
| op_drawHeading (text : jsstring) (level : Z)
| op_drawField (label value : jsstring)
| op_drawWrappedText (text : option jsstring) (x maxWidth : Q)
    (options : Options.t)
| op_drawLine
| op_drawImage (imageBytes : Bytes) (maxWidth : Q) (maxHeight : option Q)
| op_drawImageGrid (images : list Bytes) (columns : Z) (gap : Q)
| op_addSpace (space : Q).

Definition perform (op : DrawOp) (this : PDFGenerator)
  : result PDFGenerator :=
  match op with
  | op_drawHeading text level => Ok (drawHeading text level this)
  | op_drawField label value => Ok (drawField label value this)
  | op_drawWrappedText text x maxWidth options =>
      Ok (snd (drawWrappedText text x maxWidth options this))
  | op_drawLine => Ok (drawLine this)
  | op_drawImage imageBytes maxWidth maxHeight =>
      r <- drawImage imageBytes maxWidth maxHeight this ;; Ok (snd r)
  | op_drawImageGrid images columns gap =>
      drawImageGrid images columns gap this
  | op_addSpace space => Ok (addSpace space this)
  end.

Fixpoint performAll (ops : list DrawOp) (this : PDFGenerator)
  : result PDFGenerator :=
  match ops with
  | [] => Ok this
  | op :: rest => this <- perform op this ;; performAll rest this
  end.

(** [addSpace] is the one operation that never looks at the space left. *)
Definition checks_space (op : DrawOp) : bool :=
  match op with
  | op_addSpace _ => false
  | _ => true
  end.

Definition contentHeight : Q := PAGE_HEIGHT - top margins - bottom margins.

Definition below_top (s : PDFGenerator) : Prop :=
  currentY s <= PAGE_HEIGHT - top margins.

Definition cursor_in_bounds (s : PDFGenerator) : Prop :=
  bottom margins <= currentY s /\ currentY s <= PAGE_HEIGHT - top margins.

(** A height that is not negative and that an empty page can hold. *)
Definition fits_page (h : Q) : Prop := 0 <= h /\ h <= contentHeight.

(** The heights an operation reserves fit a page (for [addSpace], which
    reserves nothing: the space is not negative). *)
Definition heights_fit (op : DrawOp) : Prop :=
  match op with
  | op_drawHeading _ level =>
      fits_page
        (if Z.eqb level 1 then 20 + Fonts.heading fonts + 10
         else 15 + Fonts.subheading fonts + 8)
  | op_drawField _ _ =>
      fits_page (Fonts.body fonts * 1.4) /\ fits_page (Fonts.body fonts * 1.3)
  | op_drawWrappedText _ _ _ options =>
      fits_page
        (or_default (Options.fontSize options) (Fonts.body fonts)
         * or_default (Options.lineHeight options) 1.3)
  | op_drawLine => fits_page 15
  | op_drawImage imageBytes maxWidth maxHeight =>
      match embedJpg imageBytes with
      | Some jpgImage =>
          fits_page (snd (drawImage_size jpgImage maxWidth maxHeight) + 10)
      | None => True
      end
  | op_drawImageGrid _ columns gap =>
      fits_page (gridImageHeight columns gap + gap)
  | op_addSpace space => 0 <= space
  end.

(** [keeps f]: [f] leaves the cursor below the top margin, and within
    the margins when it was. *)
Definition keeps (f : PDFGenerator -> PDFGenerator) : Prop :=
  forall s,
    (below_top s -> below_top (f s))
    /\ (cursor_in_bounds s -> cursor_in_bounds (f s)).

End Vocabulary.

(** * [lib/image.js]: the source rectangle of the center crop *)

Module ImageJs.

(** [IMAGE_CONFIG.aspectRatio] *)
Definition aspectRatio : Q := 16 / 9.

Record CropRect := mkCrop
  { srcX : Q; srcY : Q; srcWidth : Q; srcHeight : Q }.

(** The crop rectangle [processImageToLandscape16x9] computes from the
    dimensions of the loaded image, before it draws it on the canvas. *)
Definition sourceCrop (imgWidth imgHeight : Q) : CropRect :=
  let srcAspect := imgWidth / imgHeight in
  if Qgtb srcAspect aspectRatio
  then
    let srcHeight := imgHeight in
    let srcWidth := imgHeight * aspectRatio in
    {| srcX := (imgWidth - srcWidth) / 2; srcY := 0;
       srcWidth := srcWidth; srcHeight := srcHeight |}
  else
    let srcWidth := imgWidth in
    let srcHeight := imgWidth / aspectRatio in
    {| srcX := 0; srcY := (imgHeight - srcHeight) / 2;
       srcWidth := srcWidth; srcHeight := srcHeight |}.

End ImageJs.

(** * More vocabulary: file names, drawn commands, methods *)

(** No two underscores in a row. *)
Fixpoint no_double_underscore (s : jsstring) : bool :=
  match s with
  | [] => true
  | c :: t =>
      (negb (N.eqb c underscore && starts_with_underscore t)
       && no_double_underscore t)%bool
  end.

(** The characters a file name is made of: those [sanitize] keeps, and
    the dot of the extension. *)
Definition is_filename_or_dot (c : N) : bool :=
  (is_filename_char c || N.eqb c 46)%bool.

(** Everything the document has been asked to draw, page after page. *)
Definition drawn (s : PDFGenerator) : list DrawCmd := List.concat (pages s).

(** The text of a command that draws text. *)
Definition text_of (c : DrawCmd) : option jsstring :=
  match c with
  | drawText_cmd txt _ _ _ _ _ => Some txt
  | _ => None
  end.

Definition is_rectangle (c : DrawCmd) : bool :=
  match c with
  | drawRectangle_cmd _ _ _ _ _ => true
  | _ => false
  end.

Section MoreVocabulary.
Context {RT : Runtime}.

(** A command lies above the bottom margin: the baseline of a text, the
    lower edge of an image or of a rectangle, both ends of a line. *)
Definition above_bottom_margin (c : DrawCmd) : Prop :=
  match c with
  | drawText_cmd _ _ y _ _ _ => bottom margins <= y
  | drawImage_cmd _ _ y _ _ => bottom margins <= y
  | drawLine_cmd _ y1 _ y2 _ _ => bottom margins <= y1 /\ bottom margins <= y2
  | drawRectangle_cmd _ _ y _ _ => bottom margins <= y
  end.

(** What an operation needs, besides [heights_fit], for what it draws
    to stay above the bottom margin: a line of text not lower than its
    font size, a gap that is not negative. *)
Definition draws_within_height (op : DrawOp) : Prop :=
  match op with
  | op_drawWrappedText _ _ _ options =>
      or_default (Options.fontSize options) (Fonts.body fonts)
      <= or_default (Options.fontSize options) (Fonts.body fonts)
         * or_default (Options.lineHeight options) 1.3
  | op_drawImageGrid _ _ gap => 0 <= gap
  | _ => True
  end.

(** The heights an operation reserves before it draws fit a page, and
    what it draws stays within them. *)
Definition room_to_draw (op : DrawOp) : Prop :=
  (checks_space op = true -> heights_fit op) /\ draws_within_height op.

(** From [s] to [s'] commands were only added, each above the bottom
    margin. *)
Definition draws_above (s s' : PDFGenerator) : Prop :=
  exists cmds,
    drawn s' = drawn s ++ cmds /\ Forall above_bottom_margin cmds.

(** The methods of the generator that draw or move the cursor. *)
Inductive Method :=
| m_addNewPage
| m_addPageIfNeeded (neededHeight : Q)
| m_drawWrappedText (text : option jsstring) (x maxWidth : Q)
    (options : Options.t)
| m_drawHeading (text : jsstring) (level : Z)
| m_drawField (label value : jsstring)
| m_drawImage (imageBytes : Bytes) (maxWidth : Q) (maxHeight : option Q)
| m_drawImageGrid (images : list Bytes) (columns : Z) (gap : Q)
| m_drawLine
| m_addSpace (space : Q)
| m_drawOrgHeader (logoBytes : option Bytes)
| m_drawTitle (title : jsstring)
| m_drawDistributionTable (categories : list Category)
| m_drawActivity (activity : Activity) (index : Z).

Definition call (m : Method) (this : PDFGenerator) : result PDFGenerator :=
  match m with
  | m_addNewPage => Ok (addNewPage this)
  | m_addPageIfNeeded neededHeight =>
      Ok (snd (addPageIfNeeded neededHeight this))
  | m_drawWrappedText text x maxWidth options =>
      Ok (snd (drawWrappedText text x maxWidth options this))
  | m_drawHeading text level => Ok (drawHeading text level this)
  | m_drawField label value => Ok (drawField label value this)
  | m_drawImage imageBytes maxWidth maxHeight =>
      r <- drawImage imageBytes maxWidth maxHeight this ;; Ok (snd r)
  | m_drawImageGrid images columns gap =>
      drawImageGrid images columns gap this
  | m_drawLine => Ok (drawLine this)
  | m_addSpace space => Ok (addSpace space this)
  | m_drawOrgHeader logoBytes => drawOrgHeader logoBytes this
  | m_drawTitle title => Ok (drawTitle title this)
  | m_drawDistributionTable categories =>
      Ok (drawDistributionTable categories this)
  | m_drawActivity activity index => drawActivity activity index this
  end.

Fixpoint callAll (ms : list Method) (this : PDFGenerator)
  : result PDFGenerator :=
  match ms with
  | [] => Ok this
  | m :: rest => this <- call m this ;; callAll rest this
  end.

(** The texts among some commands, in order. *)
Definition texts_of (cmds : list DrawCmd) : list jsstring :=
  flat_map (fun c => match text_of c with Some t => [t] | None => [] end)
    cmds.

(** The entry of a category in the distribution table. *)
Definition categoryText (cat : Category) : jsstring :=
  label cat ++ lit ": " ++ numberToString (percent cat) ++ lit "%".

(** The categories the table shows: those whose percent is not 0. *)
Definition shownCategories (categories : list Category) : list Category :=
  filter (fun cat => negb (Qeq_bool (percent cat) 0)) categories.


End MoreVocabulary.

(** * The distribution in the form (main.js)

    The part of the state that the handlers of the distribution inputs
    change: [report.distribution.categories].  What they do to the
    document (rows, totals, alerts) is left out. *)

(** What [parseFloat] returns. *)
Inductive JSNumber := NaN | Infinity | NegInfinity | Finite (q : Q).

(** [report.distribution.categories] when the form is loaded. *)
Definition initialCategories : list Category :=
  [ mkCategory (lit "American") 0; mkCategory (lit "French") 0;
    mkCategory (lit "Spanish") 0; mkCategory (lit "Chinese") 0;
    mkCategory (lit "Mixed") 0; mkCategory (lit "Other") 0 ].

(** [let value = parseFloat(input.value) || 0], then the two clamps:
    [NaN] and 0 are falsy, [-Infinity < 0] and [Infinity > 100]. *)
Definition clampedValue (parsed : JSNumber) : Q :=
  match parsed with
  | NaN => 0
  | NegInfinity => 0
  | Infinity => 100
  | Finite q =>
      let value := if Qeq_bool q 0 then 0 else q in
      let value := if Qltb value 0 then 0 else value in
      if Qgtb value 100 then 100 else value
  end.

(** [const cat = categories.find(c => c.label === category);
     if (cat) cat.percent = value] *)
Fixpoint setPercent (category : jsstring) (value : Q)
  (categories : list Category) : list Category :=
  match categories with
  | [] => []
  | c :: rest =>
      if streq (label c) category
      then mkCategory (label c) value :: rest
      else c :: setPercent category value rest
  end.

(** [category] is [input.dataset.category], [parsed] is
    [parseFloat(input.value)]. *)
Definition updateDistributionValue (category : jsstring) (parsed : JSNumber)
  (categories : list Category) : list Category :=
  setPercent category (clampedValue parsed) categories.

(** [index = categories.findIndex(c => c.label === label);
     if (index > -1) categories.splice(index, 1)] *)
Fixpoint removeDistributionCategory (label' : jsstring)
  (categories : list Category) : list Category :=
  match categories with
  | [] => []
  | c :: rest =>
      if streq (label c) label' then rest
      else c :: removeDistributionCategory label' rest
  end.

(** [renderReview]: [categories.filter(c => c.percent > 0)] *)
Definition activeCategories (categories : list Category) : list Category :=
  filter (fun c => Qgtb (percent c) 0) categories.

Section Distribution.

(** [String.prototype.toLowerCase] *)
Variable toLowerCase : jsstring -> jsstring.

Definition addDistributionCategory (label' : jsstring)
  (categories : list Category) : list Category :=
  let exists' :=
    existsb
      (fun c => streq (toLowerCase (label c)) (toLowerCase label'))
      categories in
  if exists' then categories
  else categories ++ [mkCategory label' 0].

(** The calls that change the categories. *)
Inductive DistributionCall :=
| call_updateDistributionValue (category : jsstring) (parsed : JSNumber)
| call_addDistributionCategory (label' : jsstring)
| call_removeDistributionCategory (label' : jsstring).

Definition distributionCall (categories : list Category)
  (c : DistributionCall) : list Category :=
  match c with
  | call_updateDistributionValue category parsed =>
      updateDistributionValue category parsed categories
  | call_addDistributionCategory label' =>
      addDistributionCategory label' categories
  | call_removeDistributionCategory label' =>
      removeDistributionCategory label' categories
  end.

(** The categories after some calls, from those of the loaded form. *)
Definition categoriesAfter (calls : list DistributionCall)
  : list Category :=
  fold_left distributionCall calls initialCategories.

(** The lower-case labels, by which [addDistributionCategory] tells
    categories apart. *)
Definition lowerLabels (categories : list Category) : list jsstring :=
  map (fun c => toLowerCase (label c)) categories.

End Distribution.

(** * A concrete runtime

    A stand-in for pdf-lib on which the generator can be run: every
    glyph is half (bold: six tenths of) the font size wide; a JPEG is the
    two bytes of its start marker followed by a width and a height, a PNG
    the first two bytes of its signature followed by the same; a number
    is printed as the decimal of its integer part.  The configuration is
    the one of the repository. *)

Definition sample_width (font : Font) (text : jsstring) (size : Q) : Q :=
  inject_Z (Z.of_nat (List.length text)) * size
  * match font with Helvetica => 0.5 | HelveticaBold => 0.6 end.

Definition sample_decode (m1 m2 : N) (bytes : Bytes) : option PDFImage :=
  match bytes with
  | b1 :: b2 :: w :: h :: _ =>
      if (N.eqb b1 m1 && N.eqb b2 m2 && N.ltb 0 w && N.ltb 0 h)%bool
      then Some (mkImage (inject_Z (Z.of_N w)) (inject_Z (Z.of_N h)))
      else None
  | _ => None
  end.

Definition sample_numberToString (q : Q) : jsstring :=
  lit (NilZero.string_of_int (Z.to_int (Qfloor q))).

Definition sampleRuntime : Runtime :=
  {| widthOfTextAtSize := sample_width;
     embedJpg := sample_decode 255 216;
     embedPng := sample_decode 137 80;
     numberToString := sample_numberToString;
     config := ORG_CONFIG |}.

(** A 16:9 photo as the wizard produces them, a portrait JPEG, and
    bytes that are no image. *)
Definition photo16x9 : Bytes := [255; 216; 160; 90]%N.
Definition portraitJpg : Bytes := [255; 216; 30; 40]%N.

(** Three words of twelve letters: at size 10 each is 60 wide. *)
Definition sample_text : jsstring :=
  lit "aaaaaaaaaaaa bbbbbbbbbbbb cccccccccccc".

Definition sample_activity1 : Activity :=
  {| date := lit "2025-10-01"; location := lit "Room 12";
     participants := lit "30 students"; typeIndex := 0;
     medium := []; mediumOther := []; foreignCountry := [];
     foreignSchoolName := []; foreignSchoolAddress := [];
     description := lit "We cooked a dish from home together.";
     impact := lit "The class asked for more.";
     photos := [mkPhoto photo16x9] |}.

Definition sample_activity2 : Activity :=
  {| date := lit "2025-11-05"; location := lit "Library";
     participants := lit "2 classes"; typeIndex := 1;
     medium := lit "Other"; mediumOther := lit "Letters";
     foreignCountry := lit "France"; foreignSchoolName := lit "Lycee";
     foreignSchoolAddress := lit "Lyon";
     description := lit "The pupils wrote to each other.";
     impact := lit "Forty letters were exchanged.";
     photos := [mkPhoto photo16x9; mkPhoto photo16x9; mkPhoto photo16x9] |}.

Definition seven_photos : list Bytes := repeat photo16x9 7.

(** An activity whose description is 44 words of 60 letters, each a line
    of its own at the width of the page. *)
Definition long_word : jsstring := repeat 97%N 60.

Definition long_description : jsstring :=
  List.concat (map (fun w => w ++ [32%N]) (repeat long_word 43))
    ++ long_word.

Definition long_activity : Activity :=
  {| date := lit "2025-10-01"; location := lit "Room 12";
     participants := lit "30 students"; typeIndex := 0;
     medium := []; mediumOther := []; foreignCountry := [];
     foreignSchoolName := []; foreignSchoolAddress := [];
     description := long_description;
     impact := lit "The class asked for more.";
     photos := [] |}.

Definition sample_report : Report :=
  {| schoolYear := lit "2025-2026"; instructorName := lit "Ann Lee";
     sevisId := lit "N0012345678"; schoolType := lit "Public";
     headerPhoto := Some (mkPhoto photo16x9);
     distribution :=
       Some [mkCategory (lit "American") 60; mkCategory (lit "French") 0;
             mkCategory (lit "Other") 40];
     activities := [sample_activity1; sample_activity2] |}.

(** A logo in PNG, 200 by 50. *)
Definition logoPng : Bytes := [137; 80; 200; 50]%N.

(** Lower-casing of the letters A to Z. *)
Definition sample_toLowerCase (s : jsstring) : jsstring :=
  map (fun c => if in_range 65 90 c then (c + 32)%N else c) s.

(** A label that is there but for its case, a new one, a value above
    100 typed for it, and a category removed. *)
Definition sample_calls : list DistributionCall :=
  [call_addDistributionCategory (lit "french");
   call_addDistributionCategory (lit "German");
   call_updateDistributionValue (lit "German") (Finite 150);
   call_removeDistributionCategory (lit "Mixed")].

Definition sample_ops : list DrawOp :=
  [op_drawHeading (lit "General Information") 2;
   op_drawField (lit "School Year") (lit "2025-2026");
   op_drawWrappedText (Some sample_text) 50 100 Options.none;
   op_drawLine;
   op_drawImage portraitJpg 512 (Some 250);
   op_drawImageGrid seven_photos 2 10].

(** * Properties *)

(** ** Comparisons *)

Lemma Qltb_lt (x y : Q) : Qltb x y = true <-> x < y.
Proof.
  unfold Qltb. rewrite negb_true_iff. split.
  - intros H. apply Qnot_le_lt. intros Hle.
    apply Qle_bool_iff in Hle. congruence.
  - intros H. destruct (Qle_bool y x) eqn:E; [|reflexivity].
    apply Qle_bool_iff in E. exfalso. now apply (Qlt_not_le x y).
Qed.

Lemma Qltb_ge (x y : Q) : Qltb x y = false <-> y <= x.
Proof.
  unfold Qltb. rewrite negb_false_iff. apply Qle_bool_iff.
Qed.

Lemma Qltb_cases (x y : Q) :
  (Qltb x y = true /\ x < y) \/ (Qltb x y = false /\ y <= x).
Proof.
  destruct (Qltb x y) eqn:E.
  - left. split; [reflexivity | now apply Qltb_lt].
  - right. split; [reflexivity | now apply Qltb_ge].
Qed.

(** ** Strings *)

Lemma trimStart_blank (s : jsstring) :
  forallb is_space s = true -> trimStart s = [].
Proof.
  induction s as [|c t IH]; [reflexivity|].
  cbn [forallb trimStart]. intros H.
  apply andb_true_iff in H as [Hc Ht]. rewrite Hc. now apply IH.
Qed.

Lemma trim_blank (s : jsstring) : forallb is_space s = true -> trim s = [].
Proof.
  intros H. unfold trim. now rewrite (trimStart_blank s H).
Qed.

(** ** The file name *)

Lemma starts_with_underscore_collapse (s : jsstring) :
  starts_with_underscore (collapse_underscores s) = starts_with_underscore s.
Proof.
  induction s as [|c t IH]; [reflexivity|].
  cbn [collapse_underscores].
  destruct (N.eqb c underscore) eqn:Hc; cbn [andb].
  - destruct (starts_with_underscore t) eqn:Ht.
    + rewrite IH. cbn. now rewrite Hc.
    + cbn. now rewrite Hc.
  - cbn. now rewrite Hc.
Qed.

Lemma collapse_underscores_idem (s : jsstring) :
  collapse_underscores (collapse_underscores s) = collapse_underscores s.
Proof.
  induction s as [|c t IH]; [reflexivity|].
  cbn [collapse_underscores].
  destruct (N.eqb c underscore && starts_with_underscore t)%bool eqn:Hc.
  - exact IH.
  - cbn [collapse_underscores].
    rewrite starts_with_underscore_collapse, Hc. now rewrite IH.
Qed.

Lemma underscore_is_filename_char : is_filename_char underscore = true.
Proof. reflexivity. Qed.

Lemma replace_special_fixed (s : jsstring) :
  forallb is_filename_char s = true -> replace_special s = s.
Proof.
  induction s as [|c t IH]; [reflexivity|].
  cbn [forallb]. intros H. apply andb_true_iff in H as [Hc Ht].
  cbn [replace_special map]. rewrite Hc. f_equal. now apply IH.
Qed.

Lemma replace_special_clean (s : jsstring) :
  forallb is_filename_char (replace_special s) = true.
Proof.
  induction s as [|c t IH]; [reflexivity|].
  cbn [replace_special map forallb].
  apply andb_true_iff. split; [|exact IH].
  destruct (is_filename_char c) eqn:Hc; [exact Hc | reflexivity].
Qed.

Lemma collapse_underscores_clean (s : jsstring) :
  forallb is_filename_char s = true ->
  forallb is_filename_char (collapse_underscores s) = true.
Proof.
  induction s as [|c t IH]; [reflexivity|].
  cbn [forallb]. intros H. apply andb_true_iff in H as [Hc Ht].
  cbn [collapse_underscores].
  destruct (N.eqb c underscore && starts_with_underscore t)%bool.
  - now apply IH.
  - cbn [forallb]. rewrite Hc. now apply IH.
Qed.

Lemma sanitize_clean (s : jsstring) :
  forallb is_filename_char (sanitize s) = true.
Proof.
  unfold sanitize. apply collapse_underscores_clean, replace_special_clean.
Qed.

(** A string with no whitespace is one piece. *)
Lemma split_from_word (w : jsstring) :
  existsb is_space w = false ->
  forall in_ws cur, split_from in_ws cur w = [rev cur ++ w].
Proof.
  induction w as [|c t IH]; intros H in_ws cur; cbn [split_from].
  - now rewrite app_nil_r.
  - cbn [existsb] in H. apply orb_false_iff in H as [Hc Ht].
    rewrite Hc, (IH Ht). cbn [rev]. now rewrite <- app_assoc.
Qed.

Lemma split_from_nonempty (s : jsstring) :
  forall in_ws cur, split_from in_ws cur s <> [].
Proof.
  induction s as [|c t IH]; intros in_ws cur; cbn [split_from];
    [discriminate|].
  destruct (is_space c); [destruct in_ws|]; try apply IH; discriminate.
Qed.

Lemma last_cons_nonempty {A : Type} (a d : A) (l : list A) :
  l <> [] -> last (a :: l) d = last l d.
Proof. destruct l; [contradiction | reflexivity]. Qed.

(** After a whitespace character, a word with no whitespace that ends
    the string is the last piece. *)
Lemma split_from_last_word (pre w : jsstring) (sp : N) :
  is_space sp = true ->
  existsb is_space w = false ->
  forall in_ws cur, last (split_from in_ws cur (pre ++ sp :: w)) [] = w.
Proof.
  intros Hsp Hw. induction pre as [|c t IH]; intros in_ws cur;
    cbn [app split_from].
  - rewrite Hsp, (split_from_word w Hw). now destruct in_ws.
  - destruct (is_space c); [destruct in_ws|]; try apply IH.
    rewrite last_cons_nonempty; [apply IH | apply split_from_nonempty].
Qed.

Lemma trimStart_word (w : jsstring) :
  truthy w = true -> existsb is_space w = false -> trimStart w = w.
Proof.
  destruct w as [|c t]; [discriminate|]. intros _ H.
  cbn [existsb] in H. apply orb_false_iff in H as [Hc _].
  cbn [trimStart]. now rewrite Hc.
Qed.

(** Trimming the start keeps a final word, after whitespace if anything
    else is kept. *)
Lemma trimStart_before_word (pre w : jsstring) (sp : N) :
  is_space sp = true ->
  truthy w = true -> existsb is_space w = false ->
  trimStart (pre ++ sp :: w) = w
  \/ exists pre', trimStart (pre ++ sp :: w) = pre' ++ sp :: w.
Proof.
  intros Hsp Ht Hw. induction pre as [|c t IH]; cbn [app trimStart].
  - rewrite Hsp. left. now apply trimStart_word.
  - destruct (is_space c); [exact IH|]. right. now exists (c :: t).
Qed.

Lemma trimEnd_after_word (pre w : jsstring) :
  truthy w = true -> existsb is_space w = false ->
  trimEnd (pre ++ w) = pre ++ w.
Proof.
  intros Ht Hw. unfold trimEnd. rewrite rev_app_distr.
  assert (Hrev : exists c t, rev w = c :: t /\ is_space c = false).
  { destruct (rev w) as [|c t] eqn:E.
    - apply (f_equal (@rev N)) in E. rewrite rev_involutive in E.
      subst w. discriminate.
    - exists c, t. split; [reflexivity|].
      assert (Hex : existsb is_space (rev w) = false).
      { clear E. induction w as [|a l IH]; [reflexivity|].
        cbn [existsb] in Hw. apply orb_false_iff in Hw as [Ha Hl].
        cbn [rev]. rewrite existsb_app. cbn [existsb].
        rewrite Ha. destruct l as [|b l'].
        - reflexivity.
        - rewrite IH; [reflexivity | reflexivity | exact Hl]. }
      rewrite E in Hex. cbn [existsb] in Hex.
      now apply orb_false_iff in Hex as [Hc _]. }
  destruct Hrev as [c [t [E Hc]]]. rewrite E. cbn [app trimStart].
  rewrite Hc. change (c :: t ++ rev pre) with ((c :: t) ++ rev pre).
  rewrite <- E, <- rev_app_distr. apply rev_involutive.
Qed.

Lemma lastName_of_full_name (first w : jsstring) :
  truthy w = true -> existsb is_space w = false ->
  last (split_ws (trim (first ++ lit " " ++ w))) [] = w.
Proof.
  intros Ht Hw. unfold trim. change (lit " " ++ w) with (32%N :: w).
  destruct (trimStart_before_word first w 32%N eq_refl Ht Hw)
    as [-> | [pre' ->]].
  - pose proof (trimEnd_after_word [] w Ht Hw) as E. cbn [app] in E.
    rewrite E. unfold split_ws. now rewrite (split_from_word w Hw).
  - change (pre' ++ 32%N :: w) with (pre' ++ [32%N] ++ w).
    rewrite app_assoc, (trimEnd_after_word _ w Ht Hw), <- app_assoc.
    unfold split_ws. now apply split_from_last_word.
Qed.

(** C6. Sanitizing is idempotent, and the year ["2025-2026"] with the name
    ["O'Brien Smith"] gives
    ["Cultural_Activities_Report_2025-2026_Smith.pdf"]: of a name only the
    last whitespace-separated token is used, whatever comes before it. *)
Theorem sanitize_idempotent_and_filename_example :
  (forall s : jsstring, sanitize (sanitize s) = sanitize s)
  /\ generateFilename (lit "2025-2026") (lit "O'Brien Smith")
     = lit "Cultural_Activities_Report_2025-2026_Smith.pdf"
  /\ (forall year first surname : jsstring,
        truthy surname = true ->
        existsb is_space surname = false ->
        generateFilename year (first ++ lit " " ++ surname)
        = lit "Cultural_Activities_Report_" ++ sanitize year ++ lit "_"
            ++ sanitize surname ++ lit ".pdf").
Proof.
  split; [|split].
  - intros s. unfold sanitize at 1.
    rewrite (replace_special_fixed _ (sanitize_clean s)).
    unfold sanitize. apply collapse_underscores_idem.
  - vm_compute. reflexivity.
  - intros year first surname Ht Hw. unfold generateFilename.
    cbv zeta. rewrite (lastName_of_full_name first surname Ht Hw), Ht.
    reflexivity.
Qed.

Section Properties.
Context {RT : Runtime}.

(** ** Pages and the cursor *)

Lemma addPageIfNeeded_breaks (neededHeight : Q) (this : PDFGenerator) :
  currentY this - neededHeight < bottom margins ->
  addPageIfNeeded neededHeight this = (true, addNewPage this).
Proof.
  intros H. unfold addPageIfNeeded. apply Qltb_lt in H. now rewrite H.
Qed.

Lemma addPageIfNeeded_stays (neededHeight : Q) (this : PDFGenerator) :
  ~ currentY this - neededHeight < bottom margins ->
  addPageIfNeeded neededHeight this = (false, this).
Proof.
  intros H. unfold addPageIfNeeded.
  destruct (Qltb_cases (currentY this - neededHeight) (bottom margins))
    as [[E Hlt] | [E Hge]]; rewrite E; [contradiction | reflexivity].
Qed.

Lemma pages_addNewPage (this : PDFGenerator) :
  pages (addNewPage this) = pages this ++ [[]].
Proof. reflexivity. Qed.

(** C4. [addPageIfNeeded h] appends a page and returns [true] exactly
    when [currentY - h < margins.bottom]; the cursor is then
    [PAGE_HEIGHT - margins.top].  Otherwise it returns [false] and the
    generator is as it was. *)
Theorem addPageIfNeeded_spec (neededHeight : Q) (this : PDFGenerator) :
  (fst (addPageIfNeeded neededHeight this) = true
   <-> currentY this - neededHeight < bottom margins)
  /\ (currentY this - neededHeight < bottom margins ->
      pages (snd (addPageIfNeeded neededHeight this)) = pages this ++ [[]]
      /\ currentY (snd (addPageIfNeeded neededHeight this))
         = PAGE_HEIGHT - top margins)
  /\ (~ currentY this - neededHeight < bottom margins ->
      addPageIfNeeded neededHeight this = (false, this)).
Proof.
  split; [|split].
  - split.
    + intros H. apply Qnot_le_lt. intros Hle.
      rewrite addPageIfNeeded_stays in H; [discriminate|].
      now apply Qle_not_lt.
    + intros H. now rewrite addPageIfNeeded_breaks.
  - intros H. rewrite (addPageIfNeeded_breaks _ _ H). cbn [snd].
    split; [apply pages_addNewPage | reflexivity].
  - apply addPageIfNeeded_stays.
Qed.

(** C10. With a text that is absent, empty or made of whitespace only,
    [drawWrappedText] returns 0 and the generator is as it was: nothing
    is drawn, the cursor stays and no page is added, wherever the cursor
    is. *)
Theorem drawWrappedText_blank (text : option jsstring) (x maxWidth : Q)
  (options : Options.t) (this : PDFGenerator) :
  (text = None \/ exists t, text = Some t /\ forallb is_space t = true) ->
  drawWrappedText text x maxWidth options this = (0, this).
Proof.
  intros [-> | [t [-> Ht]]]; unfold drawWrappedText; [reflexivity|].
  rewrite (trim_blank t Ht). cbn [streq].
  now rewrite orb_true_r.
Qed.

(** ** Breaking a text into lines *)

Lemma visible_app (a b : jsstring) : visible (a ++ b) = visible a ++ visible b.
Proof. apply filter_app. Qed.

Lemma existsb_rev (f : N -> bool) (l : jsstring) :
  existsb f (rev l) = existsb f l.
Proof.
  induction l as [|c t IH]; [reflexivity|].
  cbn [rev existsb]. rewrite existsb_app, IH. cbn [existsb].
  rewrite orb_false_r. apply orb_comm.
Qed.

Lemma split_from_no_space (s : jsstring) :
  forall in_ws cur,
    existsb is_space cur = false ->
    Forall (fun w => existsb is_space w = false) (split_from in_ws cur s).
Proof.
  induction s as [|c t IH]; intros in_ws cur Hcur; cbn [split_from].
  - constructor; [|constructor].
    rewrite existsb_rev. exact Hcur.
  - destruct (is_space c) eqn:Hc.
    + destruct in_ws.
      * now apply IH.
      * constructor; [now rewrite existsb_rev | now apply IH].
    + apply IH. cbn [existsb]. now rewrite Hc.
Qed.

Lemma split_from_visible (s : jsstring) :
  forall in_ws cur,
    (in_ws = true -> cur = []) ->
    visible (List.concat (split_from in_ws cur s)) = visible (rev cur) ++ visible s.
Proof.
  induction s as [|c t IH]; intros in_ws cur Hws; cbn [split_from].
  - cbn [List.concat]. rewrite app_nil_r. cbn. now rewrite app_nil_r.
  - destruct (is_space c) eqn:Hc.
    + assert (Hv : visible (c :: t) = visible t).
      { unfold visible, not_space. cbn [filter]. now rewrite Hc. }
      rewrite Hv. destruct in_ws.
      * rewrite (Hws eq_refl). now apply IH.
      * cbn [List.concat]. rewrite visible_app. f_equal.
        now rewrite IH.
    + rewrite IH by discriminate.
      cbn [rev]. rewrite visible_app, <- app_assoc. f_equal.
      unfold visible, not_space. cbn [filter]. now rewrite Hc.
Qed.

Lemma split_ws_visible (s : jsstring) :
  visible (List.concat (split_ws s)) = visible s.
Proof. unfold split_ws. now rewrite split_from_visible. Qed.

Lemma breakLines_fits (font : Font) (fontSize maxWidth : Q)
  (all : list jsstring) (words : list jsstring) :
  forall currentLine,
    incl words all ->
    (truthy currentLine = true ->
     fits_or_word font fontSize maxWidth all currentLine) ->
    Forall (fits_or_word font fontSize maxWidth all)
      (breakLines font fontSize maxWidth words currentLine).
Proof.
  induction words as [|word rest IH]; intros cur Hincl Hcur;
    cbn [breakLines].
  - destruct (truthy cur) eqn:Ht; [|constructor].
    constructor; [now apply Hcur | constructor].
  - assert (Hrest : incl rest all).
    { intros w Hw. apply Hincl. now right. }
    assert (Hword : In word all) by (apply Hincl; now left).
    destruct (truthy cur) eqn:Ht; cbn [andb].
    + destruct (Qltb_cases maxWidth
                  (widthOfTextAtSize font (cur ++ lit " " ++ word) fontSize))
        as [[E H] | [E H]]; unfold Qgtb; rewrite E; cbn [andb].
      * constructor; [now apply Hcur|].
        apply IH; [exact Hrest|]. intros _. now right.
      * apply IH; [exact Hrest|]. intros _. now left.
    + rewrite andb_false_r. apply IH; [exact Hrest|]. intros _. now right.
Qed.

Lemma breakLines_visible (font : Font) (fontSize maxWidth : Q)
  (words : list jsstring) :
  forall currentLine,
    visible (List.concat (breakLines font fontSize maxWidth words currentLine))
    = visible currentLine ++ visible (List.concat words).
Proof.
  induction words as [|word rest IH]; intros cur; cbn [breakLines].
  - destruct cur as [|c cur]; cbn [truthy List.concat]; [reflexivity|].
    now rewrite !app_nil_r.
  - assert (Htest : visible (if truthy cur then cur ++ lit " " ++ word
                             else word)
                    = visible cur ++ visible word).
    { destruct cur as [|c cur]; cbn [truthy]; [reflexivity|].
      now rewrite !visible_app. }
    cbn [List.concat]. rewrite (visible_app word).
    destruct (Qgtb _ maxWidth && truthy cur)%bool.
    + cbn [List.concat]. now rewrite visible_app, IH.
    + rewrite IH, (app_assoc (visible cur)).
      apply (f_equal (fun l => l ++ visible (List.concat rest))).
      exact Htest.
Qed.

Lemma truthy_app (a b : jsstring) : truthy a = true -> truthy (a ++ b) = true.
Proof. destruct a; [discriminate | reflexivity]. Qed.

(** The first line that comes out begins with the line being built. *)
Lemma breakLines_starts (font : Font) (fontSize maxWidth : Q)
  (words : list jsstring) :
  forall currentLine,
    truthy currentLine = true ->
    exists more later,
      breakLines font fontSize maxWidth words currentLine
      = (currentLine ++ more) :: later.
Proof.
  induction words as [|word rest IH]; intros cur Ht; cbn [breakLines];
    rewrite Ht.
  - exists [], []. now rewrite app_nil_r.
  - rewrite andb_true_r.
    destruct (Qgtb _ maxWidth).
    + exists [], (breakLines font fontSize maxWidth rest word).
      now rewrite app_nil_r.
    + destruct (IH (cur ++ lit " " ++ word) (truthy_app _ _ Ht))
        as [more [later E]].
      exists (lit " " ++ word ++ more), later.
      rewrite E. now rewrite <- !app_assoc.
Qed.

(** C2. A line that [drawWrappedText] produces is wider than [maxWidth]
    only when it is a single word of the text, which is then alone on
    its line and whole.  When a word does not fit after the line being
    built, that line is committed and the word begins the next one.  No
    visible character is lost or reordered. *)
Theorem wrapLines_widths (font : Font) (fontSize maxWidth : Q)
  (text : jsstring) :
  (forall line,
      In line (wrapLines font fontSize maxWidth text) ->
      maxWidth < widthOfTextAtSize font line fontSize ->
      In line (split_ws text) /\ existsb is_space line = false)
  /\ (forall words currentLine word,
        truthy currentLine = true ->
        maxWidth
        < widthOfTextAtSize font (currentLine ++ lit " " ++ word) fontSize ->
        breakLines font fontSize maxWidth (word :: words) currentLine
        = currentLine :: breakLines font fontSize maxWidth words word
        /\ (truthy word = true ->
            exists more later,
              breakLines font fontSize maxWidth words word
              = (word ++ more) :: later))
  /\ visible (List.concat (wrapLines font fontSize maxWidth text))
     = visible text.
Proof.
  split; [|split].
  - intros line Hin Hwide.
    assert (Hall : Forall (fits_or_word font fontSize maxWidth (split_ws text))
                     (wrapLines font fontSize maxWidth text)).
    { apply breakLines_fits; [apply incl_refl | discriminate]. }
    rewrite Forall_forall in Hall.
    destruct (Hall line Hin) as [Hfit | Hword].
    + exfalso. now apply (Qlt_not_le _ _ Hwide).
    + split; [exact Hword|].
      assert (Hns := split_from_no_space text false [] eq_refl).
      rewrite Forall_forall in Hns. now apply Hns.
  - intros words cur word Ht Hwide. split.
    + cbn [breakLines]. rewrite Ht.
      apply Qltb_lt in Hwide. unfold Qgtb. now rewrite Hwide.
    + intros Hw. now apply breakLines_starts.
  - unfold wrapLines. rewrite breakLines_visible. cbn [visible filter app].
    apply split_ws_visible.
Qed.

Lemma extends_refl (s : PDFGenerator) : extends s s.
Proof. apply (extends_same s s []); [reflexivity | now rewrite app_nil_r]. Qed.

Lemma extends_trans (s1 s2 s3 : PDFGenerator) :
  extends s1 s2 -> extends s2 s3 -> extends s1 s3.
Proof.
  intros [c1 D1 C1 | c1 e1 D1] [c2 D2 C2 | c2 e2 D2].
  - apply (extends_same s1 s3 (c1 ++ c2)); [congruence|].
    now rewrite C2, C1, app_assoc.
  - apply (extends_more s1 s3 (c1 ++ c2) e2).
    now rewrite D2, D1, C1, app_assoc.
  - apply (extends_more s1 s3 c1 e1). congruence.
  - apply (extends_more s1 s3 c1 (e1 ++ (currentPage s2 ++ c2) :: e2)).
    rewrite D2, D1, <- app_assoc. reflexivity.
Qed.

Lemma extends_draw (c : DrawCmd) (s : PDFGenerator) : extends s (draw c s).
Proof. now apply (extends_same s (draw c s) [c]). Qed.

Lemma extends_moveDown (d : Q) (s : PDFGenerator) : extends s (moveDown d s).
Proof.
  apply (extends_same s (moveDown d s) []); [reflexivity|].
  cbn. now rewrite app_nil_r.
Qed.

Lemma extends_addNewPage (s : PDFGenerator) : extends s (addNewPage s).
Proof.
  apply (extends_more s (addNewPage s) [] []). cbn. now rewrite app_nil_r.
Qed.

Lemma extends_addPageIfNeeded (h : Q) (s : PDFGenerator) :
  extends s (snd (addPageIfNeeded h s)).
Proof.
  unfold addPageIfNeeded. destruct (Qltb _ _); cbn [snd].
  - apply extends_addNewPage.
  - apply extends_refl.
Qed.

(** After a page break nothing is added to the page that was current. *)
Lemma extends_after_break (s s' : PDFGenerator) :
  extends (addNewPage s) s' ->
  exists extra, donePages s' = donePages s ++ currentPage s :: extra.
Proof.
  intros [c D C | c e D].
  - exists []. rewrite D. reflexivity.
  - exists ((currentPage (addNewPage s) ++ c) :: e).
    rewrite D. cbn [addNewPage donePages]. now rewrite <- app_assoc.
Qed.

Create HintDb layout.
#[local] Hint Resolve extends_refl extends_draw extends_moveDown
  extends_addNewPage extends_addPageIfNeeded : layout.

(** Decompose a chain of updates from the outside in. *)
Ltac extends_chain :=
  repeat first
    [ solve [eauto with layout]
    | eapply extends_trans; [| solve [eauto with layout]] ].

Lemma extends_drawTextLine (x maxWidth : Q) (font : Font) (fontSize : Q)
  (color : RGB.t) (align : jsstring) (alh : Q) (s : PDFGenerator)
  (line : jsstring) :
  extends s (drawTextLine x maxWidth font fontSize color align alh s line).
Proof.
  unfold drawTextLine. destruct (Qltb _ _); extends_chain.
Qed.

Lemma extends_fold_left {A : Type} (f : PDFGenerator -> A -> PDFGenerator)
  (l : list A) :
  (forall s a, extends s (f s a)) ->
  forall s, extends s (fold_left f l s).
Proof.
  intros Hf. induction l as [|a l IH]; intros s; cbn [fold_left].
  - apply extends_refl.
  - eapply extends_trans; [apply Hf | apply IH].
Qed.

Lemma extends_drawLines (x maxWidth : Q) (font : Font) (fontSize : Q)
  (color : RGB.t) (align : jsstring) (alh : Q) (lines : list jsstring)
  (s : PDFGenerator) :
  extends s
    (fold_left (drawTextLine x maxWidth font fontSize color align alh)
       lines s).
Proof.
  apply extends_fold_left. intros. apply extends_drawTextLine.
Qed.

Lemma extends_startFreshIfOrphan (total alh : Q) (s : PDFGenerator) :
  extends s (startFreshIfOrphan total alh s).
Proof.
  unfold startFreshIfOrphan.
  destruct (Qltb _ _); [destruct (linesOnCurrentPage_lt_2 _ _)|];
    auto with layout.
Qed.

#[local] Hint Resolve extends_drawTextLine extends_drawLines
  extends_startFreshIfOrphan : layout.

Lemma extends_drawWrappedText (text : option jsstring) (x maxWidth : Q)
  (options : Options.t) (s : PDFGenerator) :
  extends s (snd (drawWrappedText text x maxWidth options s)).
Proof.
  unfold drawWrappedText. destruct text as [text|]; [|apply extends_refl].
  destruct (negb (truthy text) || streq (trim text) [])%bool; cbn [snd].
  - apply extends_refl.
  - extends_chain.
Qed.

#[local] Hint Resolve extends_drawWrappedText : layout.

Lemma extends_drawHeading (text : jsstring) (level : Z) (s : PDFGenerator) :
  extends s (drawHeading text level s).
Proof. unfold drawHeading. extends_chain. Qed.

Lemma extends_drawField (label value : jsstring) (s : PDFGenerator) :
  extends s (drawField label value s).
Proof. unfold drawField. destruct (Qle_bool _ _); extends_chain. Qed.

Lemma extends_drawLine (s : PDFGenerator) : extends s (drawLine s).
Proof. unfold drawLine. extends_chain. Qed.

Lemma extends_addSpace (space : Q) (s : PDFGenerator) :
  extends s (addSpace space s).
Proof. apply extends_moveDown. Qed.

Lemma extends_drawLabel (text : jsstring) (s : PDFGenerator) :
  extends s (drawLabel text s).
Proof. apply extends_draw. Qed.

#[local] Hint Resolve extends_drawHeading extends_drawField extends_drawLine
  extends_addSpace extends_drawLabel : layout.

(** ** The orphan check of drawWrappedText *)

Lemma Qfloor_lt_2 (q : Q) : (Qfloor q < 2)%Z <-> q < 2.
Proof.
  split; intros H.
  - apply Qlt_le_trans with (inject_Z (Qfloor q + 1)); [apply Qlt_floor|].
    change 2 with (inject_Z 2). rewrite <- Zle_Qle. lia.
  - rewrite Zlt_Qlt. apply Qle_lt_trans with q; [apply Qfloor_le | exact H].
Qed.

Lemma linesOnCurrentPage_lt_2_spec (availableHeight alh : Q) :
  0 < alh ->
  linesOnCurrentPage_lt_2 availableHeight alh
  = Z.ltb (Qfloor (availableHeight / alh)) 2.
Proof.
  intros Hpos. unfold linesOnCurrentPage_lt_2.
  destruct (Qeq_bool alh 0) eqn:E; [|reflexivity].
  apply Qeq_bool_iff in E. rewrite E in Hpos. now apply Qlt_irrefl in Hpos.
Qed.

Lemma two_lines_fit (availableHeight alh : Q) :
  0 < alh ->
  ((Qfloor (availableHeight / alh) < 2)%Z <-> availableHeight < 2 * alh).
Proof.
  intros Hpos. rewrite Qfloor_lt_2. split; intros H.
  - assert (E : availableHeight == availableHeight / alh * alh).
    { field. intros E. rewrite E in Hpos. now apply Qlt_irrefl in Hpos. }
    rewrite E. now apply Qmult_lt_r.
  - apply Qlt_shift_div_r; [exact Hpos | exact H].
Qed.

Lemma inject_length_cons {A : Type} (a : A) (l : list A) :
  inject_Z (Z.of_nat (List.length (a :: l)))
  == inject_Z (Z.of_nat (List.length l)) + 1.
Proof.
  cbn [List.length]. rewrite Nat2Z.inj_succ, <- Z.add_1_r.
  now rewrite inject_Z_plus.
Qed.

(** A line drawn where it fits goes on the current page. *)
Lemma drawTextLine_fits (x maxWidth : Q) (font : Font) (fontSize : Q)
  (color : RGB.t) (align : jsstring) (alh : Q) (s : PDFGenerator)
  (line : jsstring) :
  bottom margins <= currentY s - alh ->
  exists drawX,
    drawTextLine x maxWidth font fontSize color align alh s line
    = moveDown alh
        (draw (drawText_cmd line drawX (currentY s - fontSize) fontSize font
                 color) s).
Proof.
  intros H. unfold drawTextLine.
  apply Qltb_ge in H. rewrite H. eexists. reflexivity.
Qed.

(** A line drawn where it does not fit goes on a new page. *)
Lemma drawTextLine_breaks (x maxWidth : Q) (font : Font) (fontSize : Q)
  (color : RGB.t) (align : jsstring) (alh : Q) (s : PDFGenerator)
  (line : jsstring) :
  currentY s - alh < bottom margins ->
  exists drawX,
    drawTextLine x maxWidth font fontSize color align alh s line
    = moveDown alh
        (draw (drawText_cmd line drawX (PAGE_HEIGHT - top margins - fontSize)
                 fontSize font color) (addNewPage s)).
Proof.
  intros H. unfold drawTextLine.
  apply Qltb_lt in H. rewrite H. eexists. reflexivity.
Qed.

(** Lines that do not all fit below the cursor end on a later page. *)
Lemma drawLines_break (x maxWidth : Q) (font : Font) (fontSize : Q)
  (color : RGB.t) (align : jsstring) (alh : Q) (lines : list jsstring) :
  0 < alh ->
  forall s,
    bottom margins <= currentY s ->
    currentY s - inject_Z (Z.of_nat (List.length lines)) * alh
    < bottom margins ->
    exists cmds extra,
      donePages
        (fold_left (drawTextLine x maxWidth font fontSize color align alh)
           lines s)
      = donePages s ++ (currentPage s ++ cmds) :: extra.
Proof.
  intros Hpos. induction lines as [|l rest IH]; intros s Hlow Hover.
  - exfalso. cbn [List.length Z.of_nat] in Hover.
    change (inject_Z 0) with 0 in Hover. lra.
  - cbn [fold_left].
    destruct (Qltb_cases (currentY s - alh) (bottom margins))
      as [[E H] | [E H]].
    + destruct (drawTextLine_breaks x maxWidth font fontSize color align alh
                  s l H) as [drawX ->].
      match goal with
      | |- context [fold_left ?f rest ?s1] =>
          pose proof (extends_drawLines x maxWidth font fontSize color align
                        alh rest s1) as Hext;
          remember (fold_left f rest s1) as s' eqn:Es'; clear Es'
      end.
      exists []. rewrite app_nil_r.
      destruct Hext as [c D C | c e D]; rewrite D;
        cbn [moveDown draw addNewPage donePages].
      * exists []. reflexivity.
      * eexists. rewrite <- app_assoc. reflexivity.
    + destruct (drawTextLine_fits x maxWidth font fontSize color align alh
                  s l H) as [drawX ->].
      rewrite inject_length_cons in Hover.
      edestruct (IH (moveDown alh (draw (drawText_cmd l drawX
                                           (currentY s - fontSize) fontSize
                                           font color) s)))
        as [cmds [extra D]].
      * cbn. lra.
      * cbn. lra.
      * exists (drawText_cmd l drawX (currentY s - fontSize) fontSize font
                  color :: cmds), extra.
        rewrite D. cbn. now rewrite <- app_assoc.
Qed.

Lemma not_blank_truthy (text : jsstring) :
  streq (trim text) [] = false -> truthy text = true.
Proof. destruct text; [discriminate | reflexivity]. Qed.

(** C3. For a text that is not blank, drawn with lines of positive
    height: when the block does not fit below the cursor and fewer than
    two lines would fit, a page is added before any line is drawn, and
    the page that was current receives nothing.  Otherwise the lines are
    drawn from the cursor on.  Each line first reserves one line height.
    So a block that does not fit while two lines do leaves at least two
    lines on the page that was current and continues on a later page. *)
Theorem drawWrappedText_page_breaks (text : jsstring) (x maxWidth : Q)
  (options : Options.t) (this : PDFGenerator) :
  let fontSize := or_default (Options.fontSize options) (Fonts.body fonts) in
  let font := or_default (Options.font options) Helvetica in
  let color := or_default (Options.color options) (Colors.text colors) in
  let lineHeight := or_default (Options.lineHeight options) 1.3 in
  let align := or_default (Options.align options) (lit "left") in
  let lines := wrapLines font fontSize maxWidth text in
  let alh := fontSize * lineHeight in
  let total := inject_Z (Z.of_nat (List.length lines)) * alh in
  let drawLines :=
    fold_left (drawTextLine x maxWidth font fontSize color align alh) lines in
  let result := snd (drawWrappedText (Some text) x maxWidth options this) in
  let linesOnCurrentPage :=
    Qfloor ((currentY this - bottom margins) / alh) in
  streq (trim text) [] = false ->
  0 < alh ->
  (currentY this - total < bottom margins ->
   (linesOnCurrentPage < 2)%Z ->
   result = drawLines (addNewPage this)
   /\ exists extra,
       donePages result = donePages this ++ currentPage this :: extra)
  /\ (~ (currentY this - total < bottom margins
         /\ (linesOnCurrentPage < 2)%Z) ->
      result = drawLines this)
  /\ (forall s line,
        exists drawX,
          drawTextLine x maxWidth font fontSize color align alh s line
          = let s1 := snd (addPageIfNeeded alh s) in
            moveDown alh
              (draw (drawText_cmd line drawX (currentY s1 - fontSize)
                       fontSize font color) s1))
  /\ (currentY this - total < bottom margins ->
      (2 <= linesOnCurrentPage)%Z ->
      exists l1 l2 x1 x2 cmds extra,
        firstn 2 lines = [l1; l2]
        /\ donePages result
           = donePages this
               ++ (currentPage this
                     ++ drawText_cmd l1 x1 (currentY this - fontSize)
                          fontSize font color
                     :: drawText_cmd l2 x2 (currentY this - alh - fontSize)
                          fontSize font color
                     :: cmds)
               :: extra).
Proof.
  intros fontSize font color lineHeight align lines alh total drawLines
    result linesOnCurrentPage Hnb Hpos.
  assert (Hres : result = drawLines (startFreshIfOrphan total alh this)).
  { unfold result, drawWrappedText.
    rewrite (not_blank_truthy text Hnb), Hnb. reflexivity. }
  assert (Hfloor : linesOnCurrentPage_lt_2 (currentY this - bottom margins)
                     alh = Z.ltb linesOnCurrentPage 2).
  { now apply linesOnCurrentPage_lt_2_spec. }
  split; [|split; [|split]].
  - intros Hover Hfew.
    assert (Hr : result = drawLines (addNewPage this)).
    { rewrite Hres. unfold startFreshIfOrphan.
      apply Qltb_lt in Hover. rewrite Hover, Hfloor.
      apply Z.ltb_lt in Hfew. now rewrite Hfew. }
    split; [exact Hr|].
    apply extends_after_break. rewrite Hr. apply extends_drawLines.
  - intros Hnot. rewrite Hres. unfold startFreshIfOrphan.
    destruct (Qltb_cases (currentY this - total) (bottom margins))
      as [[E H] | [E H]]; rewrite E; [|reflexivity].
    rewrite Hfloor.
    destruct (Z.ltb_spec linesOnCurrentPage 2) as [Hlt|Hge]; [|reflexivity].
    exfalso. apply Hnot. now split.
  - intros s line. unfold drawTextLine, addPageIfNeeded.
    destruct (Qltb _ _); eexists; reflexivity.
  - intros Hover Htwo.
    assert (Hroom : 2 * alh <= currentY this - bottom margins).
    { apply Qnot_lt_le. intros Hlt.
      apply (two_lines_fit _ _ Hpos) in Hlt. fold linesOnCurrentPage in Hlt.
      lia. }
    assert (Hr : result = drawLines this).
    { rewrite Hres. unfold startFreshIfOrphan.
      apply Qltb_lt in Hover. rewrite Hover, Hfloor.
      destruct (Z.ltb_spec linesOnCurrentPage 2) as [Hlt|Hge];
        [lia | reflexivity]. }
    rewrite Hr. unfold drawLines, total in *. clear Hr Hres.
    destruct lines as [|l1 [|l2 rest]].
    + exfalso. cbn [List.length Z.of_nat] in Hover.
      change (inject_Z 0) with 0 in Hover. lra.
    + exfalso. rewrite inject_length_cons in Hover.
      cbn [List.length Z.of_nat] in Hover.
      change (inject_Z 0) with 0 in Hover. lra.
    + rewrite !inject_length_cons in Hover. cbn [fold_left].
      destruct (drawTextLine_fits x maxWidth font fontSize color align alh
                  this l1) as [x1 ->]; [lra|].
      match goal with
      | |- context [drawTextLine _ _ _ _ _ _ _ ?s1 l2] =>
          destruct (drawTextLine_fits x maxWidth font fontSize color align
                      alh s1 l2) as [x2 ->]; [cbn; lra|]
      end.
      match goal with
      | |- context [fold_left ?f rest ?s2] =>
          destruct (drawLines_break x maxWidth font fontSize color align alh
                      rest Hpos s2) as [cmds [extra D]];
            [cbn; lra | cbn; lra |]
      end.
      exists l1, l2, x1, x2, cmds, extra. split; [reflexivity|].
      rewrite D. cbn [moveDown draw donePages currentPage currentY].
      now rewrite <- !app_assoc.
Qed.

(** ** Images *)

(** The images of a row are drawn on the current page, all at the same
    height and with the size of a cell. *)
Lemma drawRowImages_spec (imageWidth imageHeight gap : Q)
  (rowImages : list Bytes) :
  forall j s s',
    drawRowImages imageWidth imageHeight gap rowImages j s = Ok s' ->
    exists cmds,
      s' = {| donePages := donePages s;
              currentPage := currentPage s ++ cmds;
              currentY := currentY s |}
      /\ Forall2
           (fun bytes cmd =>
              exists jpgImage x,
                embedJpg bytes = Some jpgImage
                /\ cmd = drawImage_cmd jpgImage x (currentY s - imageHeight)
                           imageWidth imageHeight)
           rowImages cmds.
Proof.
  induction rowImages as [|bytes rest IH]; intros j s s' H;
    cbn [drawRowImages] in H.
  - injection H as <-. exists []. split; [|constructor].
    destruct s. cbn. now rewrite app_nil_r.
  - unfold embed in H. destruct (embedJpg bytes) as [img|] eqn:E;
      cbn [bind] in H; [|discriminate].
    apply IH in H as [cmds [-> Hall]].
    eexists (_ :: cmds). split.
    + cbn [draw donePages currentPage currentY]. now rewrite <- app_assoc.
    + constructor; [|exact Hall]. eauto.
Qed.


(** ** The rows of an image grid *)

Lemma gridLoop_rows (imageWidth imageHeight gap : Q) (columns : Z)
  (images : list Bytes) :
  forall col rowImages this,
    gridLoop imageWidth imageHeight gap columns images col rowImages this
    = drawRows imageWidth imageHeight gap
        (gridRows columns images col rowImages) this.
Proof.
  induction images as [|image rest IH]; intros col rowImages this;
    cbn [gridLoop gridRows]; [reflexivity|].
  destruct (Z.eqb (col + 1) columns
            || match rest with [] => true | _ => false end)%bool.
  - cbn [drawRows].
    destruct (drawRow imageWidth imageHeight gap (rowImages ++ [image]) this)
      as [this1|e]; cbn [bind]; [apply IH | reflexivity].
  - apply IH.
Qed.

Lemma gridRows_shape (columns : Z) (images : list Bytes) :
  (1 <= columns)%Z ->
  forall rowImages,
    (Z.of_nat (List.length rowImages) < columns)%Z ->
    let rows :=
      gridRows columns images (Z.of_nat (List.length rowImages)) rowImages in
    List.concat rows
    = match images with [] => [] | _ => rowImages ++ images end
    /\ Forall (fun row => Z.of_nat (List.length row) = columns)
         (removelast rows)
    /\ Forall (fun row => (1 <= Z.of_nat (List.length row) <= columns)%Z)
         rows.
Proof.
  intros Hc. induction images as [|image rest IH]; intros rowImages Hlen.
  - cbn. repeat split; constructor.
  - cbn [gridRows].
    assert (Hlen' : (Z.of_nat (List.length rowImages) + 1)%Z
                    = Z.of_nat (List.length (rowImages ++ [image]))).
    { rewrite length_app. cbn [List.length]. lia. }
    destruct (Z.eqb_spec (Z.of_nat (List.length rowImages) + 1) columns)
      as [Hfull | Hnot]; cbn [orb].
    + destruct (IH []) as [Hcat [Hinit Hall]]; [cbn; lia|].
      change (Z.of_nat (List.length (@nil Bytes))) with 0%Z in *.
      cbn zeta in *. cbn [List.concat]. rewrite Hcat. repeat split.
      * destruct rest; [now rewrite app_nil_r | now rewrite <- app_assoc].
      * destruct (gridRows columns rest 0 []) eqn:E; [constructor|].
        cbn [removelast]. constructor; [lia | exact Hinit].
      * constructor; [lia | exact Hall].
    + destruct rest as [|image2 rest].
      * cbn. rewrite app_nil_r. repeat split; try constructor;
          try constructor; lia.
      * rewrite Hlen'. destruct (IH (rowImages ++ [image])) as [Hcat Hrest];
          [lia|].
        cbn zeta in *. split; [|exact Hrest].
        rewrite Hcat. now rewrite <- app_assoc.
Qed.

(** C8. For at least one column, [drawImageGrid] draws the rows of
    [gridRows] one after the other; they partition the images in order,
    every row but the last has [columns] images and no row is empty or
    longer.  Seven images in two columns make four rows of 2, 2, 2 and 1
    images.  A row reserves its height once and all its images, one
    command for each and nothing else, go on the same page at the same
    height, above the bottom margin when a row fits on a page.  The
    width of a cell is [(contentWidth - gap * (columns - 1)) / columns]. *)
Theorem drawImageGrid_rows (images : list Bytes) (columns : Z) (gap : Q)
  (this : PDFGenerator) :
  (1 <= columns)%Z ->
  let imageWidth := gridImageWidth columns gap in
  let imageHeight := gridImageHeight columns gap in
  let rows := gridRows columns images 0 [] in
  drawImageGrid images columns gap this
  = drawRows imageWidth imageHeight gap rows this
  /\ List.concat rows = images
  /\ Forall (fun row => Z.of_nat (List.length row) = columns)
       (removelast rows)
  /\ Forall (fun row => (1 <= Z.of_nat (List.length row) <= columns)%Z) rows
  /\ (columns = 2%Z -> List.length images = 7%nat ->
      map (@List.length Bytes) rows = [2; 2; 2; 1]%nat)
  /\ (forall row s s',
        drawRow imageWidth imageHeight gap row s = Ok s' ->
        let s1 := snd (addPageIfNeeded (imageHeight + gap) s) in
        exists cmds,
          s' = {| donePages := donePages s1;
                  currentPage := currentPage s1 ++ cmds;
                  currentY := currentY s1 - (imageHeight + gap) |}
          /\ Forall2
               (fun bytes cmd =>
                  exists jpgImage x,
                    embedJpg bytes = Some jpgImage
                    /\ cmd = drawImage_cmd jpgImage x
                               (currentY s1 - imageHeight) imageWidth
                               imageHeight)
               row cmds
          /\ (imageHeight + gap
              <= PAGE_HEIGHT - top margins - bottom margins ->
              bottom margins <= currentY s'))
  /\ imageWidth
     == (contentWidth - gap * (inject_Z columns - 1)) / inject_Z columns.
Proof.
  intros Hc imageWidth imageHeight rows.
  destruct (gridRows_shape columns images Hc []) as [Hcat [Hinit Hall]];
    [cbn; lia|].
  change (Z.of_nat (List.length (@nil Bytes))) with 0%Z in *.
  cbn zeta in *. fold rows in Hcat, Hinit, Hall.
  split; [|split; [|split; [|split; [|split; [|split]]]]].
  - unfold drawImageGrid. destruct images as [|image rest]; [reflexivity|].
    apply gridLoop_rows.
  - rewrite Hcat. now destruct images.
  - exact Hinit.
  - exact Hall.
  - intros -> Hseven. unfold rows.
    do 8 (destruct images as [|? images]; try discriminate).
    reflexivity.
  - intros row s s' H.
    set (s1 := snd (addPageIfNeeded (imageHeight + gap) s)).
    unfold drawRow in H. fold s1 in H.
    destruct (drawRowImages _ _ _ _ _ _) as [s2|] eqn:E; cbn [bind] in H;
      [|discriminate].
    injection H as <-.
    apply drawRowImages_spec in E as [cmds [-> Hcmds]].
    exists cmds. split; [reflexivity|]. split; [exact Hcmds|].
    intros Hfit. cbn [moveDown currentY].
    unfold s1, addPageIfNeeded.
    destruct (Qltb_cases (currentY s - (imageHeight + gap)) (bottom margins))
      as [[E H] | [E H]]; rewrite E; cbn [snd addNewPage currentY]; lra.
  - reflexivity.
Qed.

(** ** Activities *)

Lemma extends_drawRow (imageWidth imageHeight gap : Q) (row : list Bytes)
  (s s' : PDFGenerator) :
  drawRow imageWidth imageHeight gap row s = Ok s' -> extends s s'.
Proof.
  unfold drawRow. intros H.
  destruct (drawRowImages _ _ _ _ _ _) as [s2|] eqn:E; cbn [bind] in H;
    [|discriminate].
  injection H as <-.
  apply drawRowImages_spec in E as [cmds [-> _]].
  eapply extends_trans; [apply extends_addPageIfNeeded|].
  eapply extends_trans; [|apply extends_moveDown].
  now apply (extends_same _ _ cmds).
Qed.

Lemma extends_gridLoop (imageWidth imageHeight gap : Q) (columns : Z)
  (images : list Bytes) :
  forall col rowImages s s',
    gridLoop imageWidth imageHeight gap columns images col rowImages s
    = Ok s' ->
    extends s s'.
Proof.
  induction images as [|image rest IH]; intros col rowImages s s' H;
    cbn [gridLoop] in H.
  - injection H as <-. apply extends_refl.
  - destruct (Z.eqb (col + 1) columns
              || match rest with [] => true | _ => false end)%bool.
    + destruct (drawRow _ _ _ _ _) as [s1|] eqn:E; cbn [bind] in H;
        [|discriminate].
      eapply extends_trans; [eapply extends_drawRow; exact E|].
      eapply IH; exact H.
    + eapply IH; exact H.
Qed.

Lemma extends_drawImageGrid (images : list Bytes) (columns : Z) (gap : Q)
  (s s' : PDFGenerator) :
  drawImageGrid images columns gap s = Ok s' -> extends s s'.
Proof.
  unfold drawImageGrid. destruct images as [|image rest]; intros H.
  - injection H as <-. apply extends_refl.
  - eapply extends_gridLoop; exact H.
Qed.

Lemma extends_drawExtraFields (activity : Activity) (s : PDFGenerator) :
  extends s (drawExtraFields activity s).
Proof. unfold drawExtraFields. extends_chain. Qed.

#[local] Hint Resolve extends_drawExtraFields : layout.

Lemma extends_drawActivity (activity : Activity) (index : Z)
  (s s' : PDFGenerator) :
  drawActivity activity index s = Ok s' -> extends (addNewPage s) s'.
Proof.
  unfold drawActivity. intros H. cbv zeta in H.
  match type of H with
  | context [addSpace 15 ?body] =>
      assert (Hbody : extends (addNewPage s) (addSpace 15 body))
        by (destruct (Z.eqb (typeIndex activity) 1); extends_chain);
      remember (addSpace 15 body) as sb eqn:Esb; clear Esb
  end.
  match type of H with
  | bind ?m _ = _ => destruct m as [s1|] eqn:E; cbn [bind] in H;
                     [|discriminate]
  end.
  injection H as <-.
  eapply extends_trans; [|apply extends_drawLine].
  destruct (photos activity) as [|photo rest].
  - injection E as <-. exact Hbody.
  - apply extends_drawImageGrid in E.
    eapply extends_trans; [|exact E]. extends_chain.
Qed.

(** An activity leaves the pages there were as they are and adds at
    least one. *)
Lemma drawActivity_appends (activity : Activity) (index : Z)
  (s s' : PDFGenerator) :
  drawActivity activity index s = Ok s' ->
  exists added, added <> [] /\ pages s' = pages s ++ added.
Proof.
  intros H. apply extends_drawActivity, extends_after_break in H as [extra D].
  exists (extra ++ [currentPage s']). split.
  - now destruct extra.
  - unfold pages. rewrite D, <- !app_assoc. reflexivity.
Qed.

(** C5. [drawActivity] begins with a new page: the pages that exist are
    left as they are and the activity goes on pages after them.  So of
    two activities drawn one after the other no page receives anything
    from both. *)
Theorem drawActivity_fresh_page (activity1 activity2 : Activity)
  (index1 index2 : Z) (s s1 s2 : PDFGenerator) :
  drawActivity activity1 index1 s = Ok s1 ->
  drawActivity activity2 index2 s1 = Ok s2 ->
  (exists added1, added1 <> [] /\ pages s1 = pages s ++ added1)
  /\ (exists added2, added2 <> [] /\ pages s2 = pages s1 ++ added2)
  /\ (forall k,
        ~ (nth_error (pages s1) k <> nth_error (pages s) k
           /\ nth_error (pages s2) k <> nth_error (pages s1) k)).
Proof.
  intros H1 H2.
  pose proof (drawActivity_appends _ _ _ _ H1) as [added1 [Hne1 E1]].
  pose proof (drawActivity_appends _ _ _ _ H2) as [added2 [Hne2 E2]].
  split; [eauto|]. split; [eauto|].
  intros k [Hfirst Hsecond].
  destruct (Nat.lt_ge_cases k (List.length (pages s1))) as [Hlt | Hge].
  - apply Hsecond. rewrite E2. now apply nth_error_app1.
  - apply Hfirst.
    assert (Hnone : nth_error (pages s1) k = None)
      by now apply nth_error_None.
    rewrite Hnone. symmetry. apply nth_error_None.
    rewrite E1, length_app in Hge. lia.
Qed.

(** ** Images that cannot be decoded *)











(** ** The cursor and the margins *)


Lemma keeps_draw (cmd : PDFGenerator -> DrawCmd) :
  keeps (fun s => draw (cmd s) s).
Proof. intros s. split; trivial. Qed.















End Properties.

(** * Further properties *)

(** ** File names *)

Lemma no_double_underscore_collapse (s : jsstring) :
  no_double_underscore (collapse_underscores s) = true.
Proof.
  induction s as [|c t IH]; [reflexivity|].
  cbn [collapse_underscores].
  destruct (N.eqb c underscore && starts_with_underscore t)%bool eqn:E;
    [exact IH|].
  cbn [no_double_underscore].
  now rewrite starts_with_underscore_collapse, E, IH.
Qed.

Lemma collapse_underscores_fixed (s : jsstring) :
  no_double_underscore s = true -> collapse_underscores s = s.
Proof.
  induction s as [|c t IH]; [reflexivity|].
  cbn [no_double_underscore collapse_underscores]. intros H.
  apply andb_true_iff in H as [Hc Ht]. apply negb_true_iff in Hc.
  rewrite Hc. f_equal. now apply IH.
Qed.

Lemma collapse_underscores_length (s : jsstring) :
  (List.length (collapse_underscores s) <= List.length s)%nat.
Proof.
  induction s as [|c t IH]; [reflexivity|].
  cbn [collapse_underscores].
  destruct (N.eqb c underscore && starts_with_underscore t)%bool;
    cbn [List.length]; lia.
Qed.

(** X1. What [sanitize] returns has only characters of
    [[A-Za-z0-9-_]], no two underscores in a row, and is not longer than
    its argument; and [sanitize] leaves a string as it is exactly when
    the string is already of that form. *)
Theorem sanitize_normal_form (s : jsstring) :
  forallb is_filename_char (sanitize s) = true
  /\ no_double_underscore (sanitize s) = true
  /\ (List.length (sanitize s) <= List.length s)%nat
  /\ (sanitize s = s
      <-> forallb is_filename_char s = true
          /\ no_double_underscore s = true).
Proof.
  split; [apply sanitize_clean|].
  split; [apply no_double_underscore_collapse|].
  split.
  - unfold sanitize.
    etransitivity; [apply collapse_underscores_length|].
    unfold replace_special. now rewrite length_map.
  - split.
    + intros E. rewrite <- E. split.
      * apply sanitize_clean.
      * apply no_double_underscore_collapse.
    + intros [Hclean Hnd]. unfold sanitize.
      rewrite (replace_special_fixed s Hclean).
      now apply collapse_underscores_fixed.
Qed.

Lemma forallb_weaken {A : Type} (f g : A -> bool) (l : list A) :
  (forall a, f a = true -> g a = true) ->
  forallb f l = true -> forallb g l = true.
Proof.
  intros Hfg. induction l as [|a l IH]; [reflexivity|].
  cbn [forallb]. intros H. apply andb_true_iff in H as [Ha Hl].
  now rewrite (Hfg a Ha), IH.
Qed.

(** X2. Whatever the year and the name, the file name is made of
    letters, digits, [-], [_] and [.] only, and of nothing else: no
    separator of a path, no whitespace, no quote. *)
Theorem generateFilename_characters (schoolYear instructorName : jsstring) :
  forallb is_filename_or_dot (generateFilename schoolYear instructorName)
  = true.
Proof.
  assert (Hsan : forall s, forallb is_filename_or_dot (sanitize s) = true).
  { intros s. apply (forallb_weaken is_filename_char); [|apply sanitize_clean].
    intros c Hc. unfold is_filename_or_dot. now rewrite Hc. }
  unfold generateFilename. cbv zeta.
  rewrite !forallb_app, !Hsan. reflexivity.
Qed.

(** X3. A name that is empty or made of whitespace only gives the
    surname [Unknown]. *)
Theorem generateFilename_blank_name (schoolYear instructorName : jsstring) :
  forallb is_space instructorName = true ->
  generateFilename schoolYear instructorName
  = lit "Cultural_Activities_Report_" ++ sanitize schoolYear
      ++ lit "_Unknown.pdf".
Proof.
  intros H. unfold generateFilename. cbv zeta.
  rewrite (trim_blank _ H). reflexivity.
Qed.

(** ** The center crop of [lib/image.js] *)

Lemma Qdiv_lt_iff (a b c : Q) : 0 < c -> (a < b / c <-> a * c < b).
Proof.
  intros Hc. split; intros H.
  - assert (E : b == b / c * c).
    { field. intros E. rewrite E in Hc. now apply Qlt_irrefl in Hc. }
    rewrite E. now apply Qmult_lt_r.
  - now apply Qlt_shift_div_l.
Qed.

Lemma Qdiv_le_iff (a b c : Q) : 0 < c -> (b / c <= a <-> b <= a * c).
Proof.
  intros Hc. split; intros H.
  - apply Qnot_lt_le. intros Hlt. apply (Qdiv_lt_iff a b c Hc) in Hlt.
    now apply (Qlt_not_le _ _ Hlt).
  - apply Qnot_lt_le. intros Hlt. apply (Qdiv_lt_iff a b c Hc) in Hlt.
    now apply (Qlt_not_le _ _ Hlt).
Qed.

(** X4. In exact arithmetic, for an image of positive dimensions the
    crop rectangle has the ratio 16:9, lies inside the image, is
    centered in it, and keeps the whole width or the whole height:
    nothing is stretched and nothing outside the image is read. *)
Theorem sourceCrop_inside_and_16_9 (imgWidth imgHeight : Q) :
  0 < imgWidth -> 0 < imgHeight ->
  let crop := ImageJs.sourceCrop imgWidth imgHeight in
  ImageJs.srcWidth crop / ImageJs.srcHeight crop == 16 / 9
  /\ 0 < ImageJs.srcWidth crop /\ 0 < ImageJs.srcHeight crop
  /\ 0 <= ImageJs.srcX crop /\ 0 <= ImageJs.srcY crop
  /\ ImageJs.srcX crop + ImageJs.srcWidth crop <= imgWidth
  /\ ImageJs.srcY crop + ImageJs.srcHeight crop <= imgHeight
  /\ ImageJs.srcX crop + ImageJs.srcWidth crop
     == imgWidth - ImageJs.srcX crop
  /\ ImageJs.srcY crop + ImageJs.srcHeight crop
     == imgHeight - ImageJs.srcY crop
  /\ (ImageJs.srcWidth crop == imgWidth
      \/ ImageJs.srcHeight crop == imgHeight).
Proof.
  intros Hw Hh crop. unfold crop, ImageJs.sourceCrop, ImageJs.aspectRatio.
  cbv zeta.
  destruct (Qltb_cases (16 / 9) (imgWidth / imgHeight)) as [[E H] | [E H]];
    unfold Qgtb; rewrite E;
    cbn [ImageJs.srcX ImageJs.srcY ImageJs.srcWidth ImageJs.srcHeight].
  - (* wider than 16:9: the height is kept *)
    assert (Hwide : imgHeight * (16 / 9) < imgWidth).
    { apply (Qdiv_lt_iff _ _ _ Hh) in H. lra. }
    split; [field; lra|].
    unfold Qdiv in *. change (/ 9) with (1 # 9) in *.
    change (/ 2) with (1 # 2) in *.
    repeat split; try lra; right; reflexivity.
  - (* not wider: the width is kept *)
    assert (Htall : imgWidth / (16 / 9) <= imgHeight).
    { apply (Qdiv_le_iff _ _ _ Hh) in H.
      apply Qdiv_le_iff; [reflexivity | lra]. }
    assert (Hpos : 0 < imgWidth / (16 / 9)).
    { apply Qlt_shift_div_l; [reflexivity | lra]. }
    split; [field; lra|].
    set (h := imgWidth / (16 / 9)) in *.
    unfold Qdiv. change (/ 2) with (1 # 2).
    repeat split; try lra; left; reflexivity.
Qed.

Section MoreProperties.
Context {RT : Runtime}.

(** ** The size of an image and of the logo *)

(** X5. In exact arithmetic, for an image of positive dimensions and a
    positive [maxWidth], [drawImage] never draws wider than [maxWidth];
    with a positive [maxHeight] it never draws higher than it, and the
    size is positive; one of the two bounds is reached. *)
Theorem drawImage_size_within_bounds (jpgImage : PDFImage) (maxWidth : Q)
  (maxHeight : option Q) :
  0 < width jpgImage -> 0 < height jpgImage -> 0 < maxWidth ->
  let size := drawImage_size jpgImage maxWidth maxHeight in
  fst size <= maxWidth
  /\ (forall mh, maxHeight = Some mh -> 0 < mh ->
        snd size <= mh /\ 0 < fst size /\ 0 < snd size)
  /\ (maxHeight = None -> fst size = maxWidth /\ 0 < snd size)
  /\ (fst size = maxWidth \/ maxHeight = Some (snd size)).
Proof.
  intros Hw Hh Hmax size.
  set (aspectRatio := width jpgImage / height jpgImage).
  assert (Hasp : 0 < aspectRatio).
  { unfold aspectRatio. apply Qlt_shift_div_l; [exact Hh | lra]. }
  assert (Hfree : 0 < maxWidth / aspectRatio).
  { apply Qlt_shift_div_l; [exact Hasp | lra]. }
  unfold size, drawImage_size. fold aspectRatio.
  destruct maxHeight as [mh|].
  - destruct (Qeq_bool mh 0) eqn:Ez; cbn [negb andb].
    + apply Qeq_bool_iff in Ez. cbn [fst snd].
      split; [lra|]. split; [|split; [discriminate | now left]].
      intros mh' [= <-] Hpos. lra.
    + destruct (Qltb_cases mh (maxWidth / aspectRatio)) as [[E H] | [E H]];
        unfold Qgtb; rewrite E; cbn [fst snd].
      * apply (Qdiv_lt_iff _ _ _ Hasp) in H.
        split; [lra|]. split; [|split; [discriminate | now right]].
        intros mh' [= <-] Hpos. split; [lra|]. split; [|exact Hpos].
        apply Qmult_lt_0_compat; assumption.
      * split; [lra|]. split; [|split; [discriminate | now left]].
        intros mh' [= <-] Hpos. split; [exact H|]. split; assumption.
  - cbn [fst snd]. split; [lra|]. split; [discriminate|].
    split; [|now left]. intros _. split; [reflexivity | exact Hfree].
Qed.

(** X6. In exact arithmetic, a logo of positive dimensions, embedded as
    PNG or else as JPEG, is drawn at the left margin with its top at the
    cursor, not wider than 150 and not higher than 60, in the ratio of
    the image, and reaching one of the two bounds. *)
Theorem drawLogo_fits_box (logoBytes : Bytes) (logoImage : PDFImage)
  (s : PDFGenerator) :
  (embedPng logoBytes = Some logoImage
   \/ (embedPng logoBytes = None /\ embedJpg logoBytes = Some logoImage)) ->
  0 < width logoImage -> 0 < height logoImage ->
  exists w h,
    drawLogo logoBytes s
    = Ok (draw (drawImage_cmd logoImage (left margins) (currentY s - h) w h)
            s)
    /\ 0 < w <= 150 /\ 0 < h <= 60
    /\ w / h == width logoImage / height logoImage
    /\ (w = 150 \/ h = 60).
Proof.
  intros Hembed Hw Hh.
  set (logoAspect := width logoImage / height logoImage).
  assert (Hasp : 0 < logoAspect).
  { unfold logoAspect. apply Qlt_shift_div_l; [exact Hh | lra]. }
  assert (Hlogo : catch (embed embedPng logoBytes)
                    (fun _ => embed embedJpg logoBytes) = Ok logoImage).
  { unfold embed. destruct Hembed as [-> | [-> ->]]; reflexivity. }
  unfold drawLogo. rewrite Hlogo. cbn [bind]. fold logoAspect.
  destruct (Qltb_cases 60 (150 / logoAspect)) as [[E H] | [E H]];
    unfold Qgtb; rewrite E.
  - exists (60 * logoAspect), 60. split; [reflexivity|].
    apply (Qdiv_lt_iff _ _ _ Hasp) in H.
    repeat split; try lra.
    + unfold logoAspect. field. lra.
    + now right.
  - exists 150, (150 / logoAspect). split; [reflexivity|].
    assert (Hpos : 0 < 150 / logoAspect).
    { apply Qlt_shift_div_l; [exact Hasp | lra]. }
    repeat split; try lra.
    + unfold logoAspect. field. lra.
    + now left.
Qed.

(** ** The lines of a wrapped text *)

Lemma breakLines_truthy (font : Font) (fontSize maxWidth : Q)
  (words : list jsstring) :
  forall currentLine,
    Forall (fun line => truthy line = true)
      (breakLines font fontSize maxWidth words currentLine).
Proof.
  induction words as [|word rest IH]; intros cur; cbn [breakLines].
  - destruct (truthy cur) eqn:E; repeat constructor. exact E.
  - destruct (Qgtb _ maxWidth && truthy cur)%bool eqn:E; [|apply IH].
    apply andb_true_iff in E as [_ Ht]. constructor; [exact Ht | apply IH].
Qed.

Lemma breakLines_length (font : Font) (fontSize maxWidth : Q)
  (words : list jsstring) :
  forall currentLine,
    (List.length (breakLines font fontSize maxWidth words currentLine)
     <= List.length words + (if truthy currentLine then 1 else 0))%nat.
Proof.
  induction words as [|word rest IH]; intros cur; cbn [breakLines].
  - destruct (truthy cur); cbn; lia.
  - destruct (truthy cur) eqn:Ht.
    + rewrite andb_true_r. destruct (Qgtb _ maxWidth).
      * cbn [List.length]. specialize (IH word).
        destruct (truthy word); lia.
      * specialize (IH (cur ++ lit " " ++ word)).
        rewrite (truthy_app _ _ Ht) in IH. cbn [List.length]. lia.
    + rewrite andb_false_r. specialize (IH word). cbn [List.length].
      destruct (truthy word); lia.
Qed.

Lemma breakLines_nonempty (font : Font) (fontSize maxWidth : Q)
  (words : list jsstring) :
  forall currentLine,
    truthy currentLine = true \/ Exists (fun w => truthy w = true) words ->
    breakLines font fontSize maxWidth words currentLine <> [].
Proof.
  induction words as [|word rest IH]; intros cur H.
  - destruct H as [H | H]; [|inversion H]. cbn [breakLines]. now rewrite H.
  - destruct (truthy cur) eqn:Ht.
    + destruct (breakLines_starts font fontSize maxWidth (word :: rest) cur Ht)
        as [more [later ->]].
      discriminate.
    + cbn [breakLines]. rewrite Ht, andb_false_r. apply IH.
      destruct H as [H | H]; [discriminate|].
      inversion H as [? ? Hw | ? ? Hrest]; subst; [now left | now right].
Qed.

Lemma visible_nil_blank (s : jsstring) :
  visible s = [] -> forallb is_space s = true.
Proof.
  induction s as [|c t IH]; [reflexivity|].
  unfold visible, not_space. cbn [filter forallb].
  destruct (is_space c); cbn [negb]; [exact IH | discriminate].
Qed.

Lemma concat_all_empty (l : list jsstring) :
  Forall (fun w => truthy w = false) l -> List.concat l = [].
Proof.
  induction 1 as [|w l Hw Hl IH]; [reflexivity|].
  destruct w; [exact IH | discriminate].
Qed.

Lemma not_blank_has_word (text : jsstring) :
  streq (trim text) [] = false ->
  Exists (fun w => truthy w = true) (split_ws text).
Proof.
  intros Hnb.
  destruct (Forall_Exists_dec (fun w => truthy w = false)
              (fun w => bool_dec (truthy w) false) (split_ws text))
    as [Hall | Hex].
  - exfalso. pose proof (split_ws_visible text) as Hv.
    rewrite (concat_all_empty _ Hall) in Hv. symmetry in Hv.
    apply visible_nil_blank, trim_blank in Hv. now rewrite Hv in Hnb.
  - eapply Exists_impl; [|exact Hex].
    intros w Hw. cbv beta in Hw. destruct (truthy w); [reflexivity|].
    now contradiction Hw.
Qed.

(** X7. A text that is not blank is broken into at least one line and
    into no more lines than it has words; no line is empty; and the
    height [drawWrappedText] returns is that number of lines times the
    line height, wherever the lines were drawn. *)
Theorem wrapLines_count (text : jsstring) (x maxWidth : Q)
  (options : Options.t) (this : PDFGenerator) :
  streq (trim text) [] = false ->
  let fontSize := or_default (Options.fontSize options) (Fonts.body fonts) in
  let font := or_default (Options.font options) Helvetica in
  let lineHeight := or_default (Options.lineHeight options) 1.3 in
  let lines := wrapLines font fontSize maxWidth text in
  (1 <= List.length lines <= List.length (split_ws text))%nat
  /\ Forall (fun line => truthy line = true) lines
  /\ fst (drawWrappedText (Some text) x maxWidth options this)
     = inject_Z (Z.of_nat (List.length lines)) * (fontSize * lineHeight).
Proof.
  intros Hnb fontSize font lineHeight lines. split; [|split].
  - split.
    + assert (Hne : lines <> []).
      { apply breakLines_nonempty. right. now apply not_blank_has_word. }
      destruct lines; [contradiction | cbn; lia].
    + pose proof (breakLines_length font fontSize maxWidth (split_ws text) [])
        as H. cbn [truthy] in H. unfold lines, wrapLines. lia.
  - apply breakLines_truthy.
  - unfold drawWrappedText.
    rewrite (not_blank_truthy text Hnb), Hnb. reflexivity.
Qed.

(** *** A line is broken only where the next word does not fit *)

Lemma removelast_cons_truthy (w : jsstring) (rest : list jsstring) :
  rest <> [] ->
  Forall (fun w => truthy w = true) (removelast (w :: rest)) ->
  truthy w = true /\ Forall (fun w => truthy w = true) (removelast rest).
Proof.
  intros Hne H. destruct rest as [|w2 rest]; [contradiction|].
  cbn [removelast] in H. inversion H; subst. split; assumption.
Qed.

Lemma breakLines_greedy (font : Font) (fontSize maxWidth : Q)
  (words : list jsstring) :
  Forall (fun w => truthy w = true) (removelast words) ->
  forall currentLine before line next after,
    breakLines font fontSize maxWidth words currentLine
    = before ++ line :: next :: after ->
    exists word more,
      In word words /\ truthy word = true /\ next = word ++ more
      /\ maxWidth
         < widthOfTextAtSize font (line ++ lit " " ++ word) fontSize.
Proof.
  induction words as [|word rest IH]; intros Hwords cur before line next after
    E; cbn [breakLines] in E.
  - exfalso. destruct (truthy cur); destruct before as [|b [|b2 before]];
      discriminate.
  - assert (Hrest : Forall (fun w => truthy w = true) (removelast rest)).
    { destruct rest as [|w2 rest]; [constructor|].
      now apply (removelast_cons_truthy word (w2 :: rest)). }
    destruct (Qgtb _ maxWidth && truthy cur)%bool eqn:Econd.
    + apply andb_true_iff in Econd as [Hwide Ht].
      rewrite Ht in Hwide. apply Qltb_lt in Hwide.
      destruct before as [|b before]; cbn [app] in E.
      * injection E as <- E.
        assert (Hw : truthy word = true).
        { destruct rest as [|w2 rest].
          - cbn [breakLines] in E. destruct (truthy word);
              [reflexivity | discriminate].
          - now destruct (removelast_cons_truthy word (w2 :: rest)
                            ltac:(discriminate) Hwords). }
        destruct (breakLines_starts font fontSize maxWidth rest word Hw)
          as [more [later E']].
        rewrite E' in E. injection E as <- _.
        exists word, more. repeat split; [now left | exact Hw | exact Hwide].
      * injection E as _ E.
        destruct (IH Hrest _ _ _ _ _ E) as [w [more [Hin H]]].
        exists w, more. split; [now right | exact H].
    + destruct (IH Hrest _ _ _ _ _ E) as [w [more [Hin H]]].
      exists w, more. split; [now right | exact H].
Qed.

(** Between two runs of whitespace a piece is not empty: only the first
    and the last piece of a split can be. *)
Lemma split_from_inner_truthy (s : jsstring) :
  forall in_ws cur,
    (in_ws = false -> cur <> []) ->
    Forall (fun w => truthy w = true) (removelast (split_from in_ws cur s)).
Proof.
  induction s as [|c t IH]; intros in_ws cur Hcur; cbn [split_from].
  - constructor.
  - destruct (is_space c).
    + destruct in_ws; [apply IH; discriminate|].
      pose proof (split_from_nonempty t true []) as Hne.
      pose proof (IH true [] ltac:(discriminate)) as Hin.
      destruct (split_from true [] t) as [|p ps]; [contradiction|].
      change (removelast (rev cur :: p :: ps))
        with (rev cur :: removelast (p :: ps)).
      constructor; [|exact Hin].
      destruct (rev cur) eqn:Er; [|reflexivity].
      exfalso. apply (Hcur eq_refl).
      apply (f_equal (@rev N)) in Er. now rewrite rev_involutive in Er.
    + apply IH. discriminate.
Qed.

(** X8. The wrapping is greedy: wherever [drawWrappedText] ends a line,
    the next line begins with a word of the text that did not fit at the
    end of the line, after one space. *)
Theorem wrapLines_greedy (font : Font) (fontSize maxWidth : Q)
  (text : jsstring) (before : list jsstring) (line next : jsstring)
  (after : list jsstring) :
  wrapLines font fontSize maxWidth text = before ++ line :: next :: after ->
  exists word more,
    In word (split_ws text) /\ truthy word = true /\ next = word ++ more
    /\ maxWidth < widthOfTextAtSize font (line ++ lit " " ++ word) fontSize.
Proof.
  unfold wrapLines, split_ws. intros E.
  destruct text as [|c t].
  - exfalso. cbn [split_from rev breakLines truthy] in E.
    rewrite andb_false_r in E. cbn [breakLines truthy] in E.
    destruct before as [|b [|b2 before]]; discriminate.
  - cbn [split_from] in *. destruct (is_space c) eqn:Hc.
    + (* the first piece is empty and changes nothing *)
      cbn [rev breakLines truthy andb] in E. rewrite andb_false_r in E.
      destruct (breakLines_greedy font fontSize maxWidth
                  (split_from true [] t)
                  (split_from_inner_truthy t true [] ltac:(discriminate))
                  _ _ _ _ _ E) as [w [more [Hin H]]].
      exists w, more. split; [now right | exact H].
    + apply (breakLines_greedy font fontSize maxWidth
               (split_from false [c] t)
               (split_from_inner_truthy t false [c] ltac:(discriminate))
               _ _ _ _ _ E).
Qed.

(** ** A block of text that fits *)

Lemma inject_nat_nonneg (n : nat) : 0 <= inject_Z (Z.of_nat n).
Proof. change 0 with (inject_Z 0). rewrite <- Zle_Qle. lia. Qed.

Lemma inject_nat_succ (n : nat) :
  inject_Z (Z.of_nat (S n)) == inject_Z (Z.of_nat n) + 1.
Proof. rewrite Nat2Z.inj_succ, <- Z.add_1_r. now rewrite inject_Z_plus. Qed.

Lemma drawLines_fit (x maxWidth : Q) (font : Font) (fontSize : Q)
  (color : RGB.t) (align : jsstring) (alh : Q) (lines : list jsstring) :
  0 <= alh ->
  forall s,
    bottom margins
    <= currentY s - inject_Z (Z.of_nat (List.length lines)) * alh ->
    let s' :=
      fold_left (drawTextLine x maxWidth font fontSize color align alh)
        lines s in
    exists cmds,
      donePages s' = donePages s
      /\ currentPage s' = currentPage s ++ cmds
      /\ currentY s'
         == currentY s - inject_Z (Z.of_nat (List.length lines)) * alh
      /\ List.length cmds = List.length lines
      /\ (forall k line,
            nth_error lines k = Some line ->
            exists drawX y,
              nth_error cmds k
              = Some (drawText_cmd line drawX y fontSize font color)
              /\ y == currentY s - inject_Z (Z.of_nat k) * alh - fontSize).
Proof.
  intros Halh. induction lines as [|l rest IH]; intros s Hfit.
  - exists []. cbn [fold_left List.length Z.of_nat].
    change (inject_Z 0) with 0. rewrite app_nil_r.
    repeat split; try reflexivity; [lra|].
    intros [|k] line H; discriminate.
  - cbn zeta. cbn [fold_left].
    rewrite inject_length_cons in Hfit.
    pose proof (inject_nat_nonneg (List.length rest)) as Hn.
    assert (Hprod : 0 <= inject_Z (Z.of_nat (List.length rest)) * alh)
      by now apply Qmult_le_0_compat.
    destruct (drawTextLine_fits x maxWidth font fontSize color align alh s l)
      as [drawX ->]; [lra|].
    match goal with
    | |- context [fold_left ?f rest ?s1] =>
        destruct (IH s1) as [cmds [Hd [Hc [Hy [Hlen Hnth]]]]]; [cbn; lra|]
    end.
    cbn zeta in *.
    exists (drawText_cmd l drawX (currentY s - fontSize) fontSize font color
              :: cmds).
    rewrite Hd, Hc. cbn [moveDown draw donePages currentPage currentY] in *.
    split; [reflexivity|]. split; [now rewrite <- app_assoc|].
    split; [rewrite Hy, inject_length_cons; lra|].
    split; [cbn [List.length]; now rewrite Hlen|].
    intros [|k] line H; cbn [nth_error] in *.
    + injection H as <-. exists drawX, (currentY s - fontSize).
      split; [reflexivity|]. cbn [Z.of_nat]. change (inject_Z 0) with 0. lra.
    + destruct (Hnth k line H) as [dx [y [Hk Hyk]]].
      exists dx, y. split; [exact Hk|].
      rewrite Hyk, inject_nat_succ. lra.
Qed.

(** X9. A text that is not blank and whose lines all fit above the
    bottom margin is drawn on the current page only: no page is added,
    the lines follow each other from the cursor down, the baseline of
    line [k] (from 0) at [cursor - k * lineHeight - fontSize], and the
    cursor ends lower by exactly the height that is returned. *)
Theorem drawWrappedText_fitting_block (text : jsstring) (x maxWidth : Q)
  (options : Options.t) (this : PDFGenerator) :
  let fontSize := or_default (Options.fontSize options) (Fonts.body fonts) in
  let font := or_default (Options.font options) Helvetica in
  let color := or_default (Options.color options) (Colors.text colors) in
  let lineHeight := or_default (Options.lineHeight options) 1.3 in
  let lines := wrapLines font fontSize maxWidth text in
  let result := drawWrappedText (Some text) x maxWidth options this in
  streq (trim text) [] = false ->
  0 <= fontSize * lineHeight ->
  bottom margins
  <= currentY this
     - inject_Z (Z.of_nat (List.length lines)) * (fontSize * lineHeight) ->
  exists cmds,
    donePages (snd result) = donePages this
    /\ currentPage (snd result) = currentPage this ++ cmds
    /\ currentY (snd result) == currentY this - fst result
    /\ List.length cmds = List.length lines
    /\ (forall k line,
          nth_error lines k = Some line ->
          exists drawX y,
            nth_error cmds k
            = Some (drawText_cmd line drawX y fontSize font color)
            /\ y == currentY this
                    - inject_Z (Z.of_nat k) * (fontSize * lineHeight)
                    - fontSize).
Proof.
  intros fontSize font color lineHeight lines result Hnb Halh Hfit.
  assert (Hres : result
                 = (inject_Z (Z.of_nat (List.length lines))
                    * (fontSize * lineHeight),
                    fold_left
                      (drawTextLine x maxWidth font fontSize color
                         (or_default (Options.align options) (lit "left"))
                         (fontSize * lineHeight))
                      lines this)).
  { unfold result, drawWrappedText.
    rewrite (not_blank_truthy text Hnb), Hnb.
    fold fontSize font color lineHeight lines.
    unfold startFreshIfOrphan.
    apply Qltb_ge in Hfit. now rewrite Hfit. }
  rewrite Hres. cbn [fst snd].
  apply (drawLines_fit x maxWidth font fontSize color _ _ lines Halh this Hfit).
Qed.

(** ** Pages are only added *)

Create HintDb growth.
#[local] Hint Resolve extends_refl extends_draw extends_moveDown
  extends_addNewPage extends_addPageIfNeeded extends_drawWrappedText
  extends_drawHeading extends_drawField extends_drawLine extends_addSpace
  extends_drawLabel : growth.

(** Decompose a chain of updates from the outside in. *)
Ltac grows :=
  repeat first
    [ solve [eauto with growth]
    | eapply extends_trans; [| solve [eauto with growth]] ].

Lemma extends_drawTitle (title : jsstring) (s : PDFGenerator) :
  extends s (drawTitle title s).
Proof. unfold drawTitle. grows. Qed.

Lemma extends_drawCategory (colWidth rowHeight : Q) (s : PDFGenerator)
  (col : Z) (cat : Category) :
  extends s (fst (drawCategory colWidth rowHeight (s, col) cat)).
Proof.
  unfold drawCategory. destruct (Qeq_bool (percent cat) 0); cbn [fst];
    [apply extends_refl|].
  destruct (Z.eqb (col + 1) 2); destruct (Qltb _ _); cbn [fst]; grows.
Qed.

Lemma extends_drawCategories (colWidth rowHeight : Q)
  (categories : list Category) :
  forall acc,
    extends (fst acc)
      (fst (fold_left (drawCategory colWidth rowHeight) categories acc)).
Proof.
  induction categories as [|cat rest IH]; intros [s col]; cbn [fold_left].
  - apply extends_refl.
  - eapply extends_trans;
      [apply (extends_drawCategory colWidth rowHeight s col cat)|].
    destruct (drawCategory colWidth rowHeight (s, col) cat) as [s1 col1]
      eqn:E.
    apply (IH (s1, col1)).
Qed.

Lemma extends_drawDistributionTable (categories : list Category)
  (s : PDFGenerator) :
  extends s (drawDistributionTable categories s).
Proof.
  unfold drawDistributionTable.
  pose proof (extends_drawCategories (contentWidth / 2) 20 categories
                (drawHeading (lit "Student Distribution") 2 s, 0%Z)) as H.
  destruct (fold_left _ categories _) as [s1 col]. cbn [fst] in H.
  assert (H0 : extends s s1).
  { eapply extends_trans; [apply extends_drawHeading | exact H]. }
  destruct (negb (Z.eqb col 0)); grows.
Qed.

Lemma extends_drawImage (imageBytes : Bytes) (maxWidth : Q)
  (maxHeight : option Q) (s : PDFGenerator) (r : Q * PDFGenerator) :
  drawImage imageBytes maxWidth maxHeight s = Ok r -> extends s (snd r).
Proof.
  unfold drawImage, embed. destruct (embedJpg imageBytes) as [img|];
    cbn [bind]; [|discriminate].
  destruct (drawImage_size img maxWidth maxHeight) as [w h].
  intros [= <-]. cbn [snd]. grows.
Qed.

Lemma extends_drawLogo (logoBytes : Bytes) (s s' : PDFGenerator) :
  drawLogo logoBytes s = Ok s' -> extends s s'.
Proof.
  unfold drawLogo.
  destruct (catch (embed embedPng logoBytes) _) as [img|]; cbn [bind];
    [|discriminate].
  destruct (Qgtb _ _); intros [= <-]; apply extends_draw.
Qed.

Lemma extends_drawAddress (rightX : Q) (lines : list jsstring) :
  forall acc,
    extends (fst acc) (fst (fold_left (drawAddressLine rightX) lines acc)).
Proof.
  induction lines as [|line rest IH]; intros [s y]; cbn [fold_left].
  - apply extends_refl.
  - eapply extends_trans; [|apply IH].
    unfold drawAddressLine. cbn [fst]. apply extends_draw.
Qed.

Lemma extends_drawOrgHeader (logoBytes : option Bytes) (s s' : PDFGenerator) :
  drawOrgHeader logoBytes s = Ok s' -> extends s s'.
Proof.
  unfold drawOrgHeader. intros H.
  match type of H with
  | bind ?m _ = _ =>
      assert (Hlogo : exists s1, m = Ok s1 /\ extends s s1);
        [|destruct Hlogo as [s1 [E1 Hs1]]; rewrite E1 in H; cbn [bind] in H]
  end.
  { destruct logoBytes as [bytes|].
    - destruct (drawLogo bytes s) as [s1|] eqn:E; cbn [catch].
      + exists s1. split; [reflexivity|]. now apply extends_drawLogo in E.
      + exists s. split; [reflexivity | apply extends_refl].
    - exists s. split; [reflexivity | apply extends_refl]. }
  match type of H with
  | context [fold_left ?f ?l ?acc] =>
      pose proof (extends_drawAddress (PAGE_WIDTH - right margins) l acc)
        as Haddr;
      destruct (fold_left f l acc) as [s2 textY]
  end.
  cbn [fst] in Haddr. injection H as <-.
  eapply extends_trans; [exact Hs1|].
  eapply extends_trans; [apply extends_draw|].
  eapply extends_trans; [exact Haddr|]. grows.
Qed.

Lemma extends_call (m : Method) (s s' : PDFGenerator) :
  call m s = Ok s' -> extends s s'.
Proof.
  destruct m; cbn [call]; intros H;
    try (injection H as <-; solve [eauto with growth]).
  - destruct (drawImage _ _ _ _) as [r|] eqn:E; cbn [bind] in H;
      [|discriminate].
    injection H as <-. now apply extends_drawImage in E.
  - now apply extends_drawImageGrid in H.
  - now apply extends_drawOrgHeader in H.
  - injection H as <-. apply extends_drawTitle.
  - injection H as <-. apply extends_drawDistributionTable.
  - apply extends_drawActivity in H.
    eapply extends_trans; [apply extends_addNewPage | exact H].
Qed.

Lemma extends_callAll (ms : list Method) :
  forall s s', callAll ms s = Ok s' -> extends s s'.
Proof.
  induction ms as [|m rest IH]; intros s s' H; cbn [callAll] in H.
  - injection H as <-. apply extends_refl.
  - destruct (call m s) as [s1|] eqn:E; cbn [bind] in H; [|discriminate].
    apply extends_call in E. apply IH in H.
    eapply extends_trans; [exact E | exact H].
Qed.

Lemma extends_pages (s s' : PDFGenerator) :
  extends s s' ->
  exists cmds later,
    pages s' = donePages s ++ (currentPage s ++ cmds) :: later.
Proof.
  intros [c D C | c e D]; unfold pages.
  - exists c, []. now rewrite D, C.
  - exists c, (e ++ [currentPage s']). rewrite D, <- app_assoc. reflexivity.
Qed.

(** X10. Whatever methods of the generator are called one after the
    other, the pages that were complete stay as they were, in their
    places; the page that was current keeps what it had, with more after
    it; and the number of pages never goes down. *)
Theorem pages_only_grow (ms : list Method) (s s' : PDFGenerator) :
  callAll ms s = Ok s' ->
  (forall k,
      (k < List.length (donePages s))%nat ->
      nth_error (pages s') k = nth_error (pages s) k)
  /\ (exists cmds,
        nth_error (pages s') (List.length (donePages s))
        = Some (currentPage s ++ cmds))
  /\ (List.length (pages s) <= List.length (pages s'))%nat.
Proof.
  intros H. apply extends_callAll, extends_pages in H as [cmds [later E]].
  rewrite E. split; [|split].
  - intros k Hk. unfold pages. rewrite !nth_error_app1; [reflexivity | |];
      assumption.
  - exists cmds. rewrite nth_error_app2, Nat.sub_diag; [reflexivity | lia].
  - unfold pages. rewrite !length_app. cbn [List.length]. lia.
Qed.

(** ** When [generate] gives a document *)

Lemma bind_ok_inv {A B : Type} (m : result A) (k : A -> result B) (b : B) :
  bind m k = Ok b -> exists a, m = Ok a /\ k a = Ok b.
Proof. destruct m as [a|e]; cbn [bind]; [eauto | discriminate]. Qed.











Lemma extends_length (s s' : PDFGenerator) :
  extends s s' -> (List.length (pages s) <= List.length (pages s'))%nat.
Proof.
  intros H. apply extends_pages in H as [cmds [later E]]. rewrite E.
  unfold pages. rewrite !length_app. cbn [List.length]. lia.
Qed.

Lemma drawActivities_pages (activities : list Activity) :
  forall i s s',
    drawActivities activities i s = Ok s' ->
    (List.length (pages s) + List.length activities
     <= List.length (pages s'))%nat.
Proof.
  induction activities as [|activity rest IH]; intros i s s' H;
    cbn [drawActivities] in H.
  - injection H as <-. cbn. lia.
  - apply bind_ok_inv in H as [s1 [E1 H]].
    apply drawActivity_appends in E1 as [added [Hne E1]].
    apply IH in H. rewrite E1, length_app in H.
    destruct added; [contradiction|]. cbn [List.length] in *. lia.
Qed.

(** X12. A document that [generate] gives has at least one page more
    than the report has activities: the first page, and for each
    activity the page it starts. *)
Theorem generate_page_count (fetchedHeader : option Bytes) (report : Report)
  (document : list Page) :
  generate fetchedHeader report = Ok document ->
  (1 + List.length (activities report) <= List.length document)%nat.
Proof.
  unfold generate. cbv zeta. intros H.
  apply bind_ok_inv in H as [s1 [_ H]].
  apply bind_ok_inv in H as [s2 [_ H]].
  apply bind_ok_inv in H as [s3 [H E]].
  injection E as <-. apply drawActivities_pages in H.
  match type of H with
  | (List.length (pages ?s0) + _ <= _)%nat =>
      assert (1 <= List.length (pages s0))%nat
        by (unfold pages; rewrite length_app; cbn; lia)
  end.
  lia.
Qed.

(** ** The distribution table *)

Lemma drawn_draw (c : DrawCmd) (s : PDFGenerator) :
  drawn (draw c s) = drawn s ++ [c].
Proof.
  unfold drawn, pages. cbn [draw donePages currentPage].
  rewrite !concat_app. cbn [List.concat]. now rewrite !app_nil_r, app_assoc.
Qed.

Lemma drawn_moveDown (d : Q) (s : PDFGenerator) :
  drawn (moveDown d s) = drawn s.
Proof. reflexivity. Qed.

Lemma drawn_addNewPage (s : PDFGenerator) : drawn (addNewPage s) = drawn s.
Proof.
  unfold drawn, pages. cbn [addNewPage donePages currentPage].
  rewrite !concat_app. cbn [List.concat]. now rewrite !app_nil_r.
Qed.

Lemma drawn_addPageIfNeeded (h : Q) (s : PDFGenerator) :
  drawn (snd (addPageIfNeeded h s)) = drawn s.
Proof.
  unfold addPageIfNeeded. destruct (Qltb _ _); cbn [snd];
    [apply drawn_addNewPage | reflexivity].
Qed.

Lemma texts_of_app (a b : list DrawCmd) :
  texts_of (a ++ b) = texts_of a ++ texts_of b.
Proof. apply flat_map_app. Qed.

Lemma drawn_drawCategory (colWidth rowHeight : Q) (s : PDFGenerator)
  (col : Z) (cat : Category) :
  exists cmds,
    drawn (fst (drawCategory colWidth rowHeight (s, col) cat))
    = drawn s ++ cmds
    /\ texts_of cmds = map categoryText (shownCategories [cat])
    /\ List.length (filter is_rectangle cmds)
       = List.length (shownCategories [cat])
    /\ List.length cmds = (2 * List.length (shownCategories [cat]))%nat.
Proof.
  unfold drawCategory, shownCategories. cbn [filter].
  destruct (Qeq_bool (percent cat) 0); cbn [negb fst].
  - exists []. now rewrite app_nil_r.
  - destruct (Z.eqb (col + 1) 2); destruct (Qltb _ _); cbn [fst];
      eexists [_; _];
      (split;
       [rewrite ?drawn_moveDown, !drawn_draw, ?drawn_addNewPage,
          <- app_assoc; reflexivity
       |split; [reflexivity | split; reflexivity]]).
Qed.

Lemma shownCategories_cons (cat : Category) (rest : list Category) :
  shownCategories (cat :: rest) = shownCategories [cat] ++ shownCategories rest.
Proof.
  unfold shownCategories. cbn [filter].
  now destruct (negb (Qeq_bool (percent cat) 0)).
Qed.

Lemma drawn_drawCategories (colWidth rowHeight : Q)
  (categories : list Category) :
  forall acc,
    exists cmds,
      drawn (fst (fold_left (drawCategory colWidth rowHeight) categories acc))
      = drawn (fst acc) ++ cmds
      /\ texts_of cmds = map categoryText (shownCategories categories)
      /\ List.length (filter is_rectangle cmds)
         = List.length (shownCategories categories)
      /\ List.length cmds
         = (2 * List.length (shownCategories categories))%nat.
Proof.
  induction categories as [|cat rest IH]; intros [s col]; cbn [fold_left].
  - exists []. now rewrite app_nil_r.
  - destruct (drawn_drawCategory colWidth rowHeight s col cat)
      as [c1 [D1 [T1 [R1 L1]]]].
    destruct (drawCategory colWidth rowHeight (s, col) cat) as [s1 col1].
    destruct (IH (s1, col1)) as [c2 [D2 [T2 [R2 L2]]]].
    cbn [fst] in *. exists (c1 ++ c2).
    rewrite D2, D1, <- app_assoc, shownCategories_cons.
    split; [reflexivity|].
    rewrite texts_of_app, filter_app, map_app, !length_app, T1, T2, R1, R2,
      L1, L2.
    repeat split; lia.
Qed.

(** X13. The distribution table draws its heading and then, for each
    category whose percent is not 0 and in the order of the list, one
    entry [label: percent%] and one bar; a category with percent 0
    leaves no trace. *)
Theorem drawDistributionTable_shows_nonzero (categories : list Category)
  (s : PDFGenerator) :
  exists cmds,
    drawn (drawDistributionTable categories s) = drawn s ++ cmds
    /\ texts_of cmds
       = lit "Student Distribution"
           :: map categoryText (shownCategories categories)
    /\ List.length (filter is_rectangle cmds)
       = List.length (shownCategories categories)
    /\ List.length cmds
       = (1 + 2 * List.length (shownCategories categories))%nat.
Proof.
  unfold drawDistributionTable.
  destruct (drawn_drawCategories (contentWidth / 2) 20 categories
              (drawHeading (lit "Student Distribution") 2 s, 0%Z))
    as [cmds [D [T [R L]]]].
  destruct (fold_left _ categories _) as [s1 col]. cbn [fst] in D.
  eexists (_ :: cmds).
  split; [|split; [|split]].
  - assert (E : drawn (addSpace 10
                         (if negb (Z.eqb col 0) then moveDown 20 s1 else s1))
                = drawn s1).
    { destruct (negb (Z.eqb col 0)); reflexivity. }
    rewrite E, D. unfold drawHeading.
    rewrite drawn_moveDown, drawn_draw, drawn_moveDown, drawn_addPageIfNeeded.
    rewrite <- app_assoc. reflexivity.
  - cbn [texts_of flat_map text_of app]. fold (texts_of cmds).
    now rewrite T.
  - cbn [filter is_rectangle]. exact R.
  - cbn [List.length]. now rewrite L.
Qed.

(** X14. The two entries of a row of the distribution table go on the
    same page at the same height, the second one column further right:
    space for the row is looked for once, before the first entry, and
    the second entry never starts a page, provided an empty page can
    hold a row.  The bar of a category between 0 and 100 percent stays
    within its column of at least 80 points. *)
Theorem distribution_row_on_one_page (colWidth : Q) (s : PDFGenerator)
  (first second : Category) :
  bottom margins <= PAGE_HEIGHT - top margins - 20 ->
  ~ percent first == 0 -> ~ percent second == 0 ->
  let s0 := snd (addPageIfNeeded 20 s) in
  let entry (col : Z) (cat : Category) :=
    [drawText_cmd (categoryText cat)
       (left margins + inject_Z col * colWidth + 10) (currentY s0 - 14)
       (Fonts.body fonts) Helvetica (Colors.text colors);
     drawRectangle_cmd (left margins + inject_Z col * colWidth + 10)
       (currentY s0 - 20 + 2) (percent cat / 100 * (colWidth - 80)) 4
       (Colors.primary colors)] in
  fold_left (drawCategory colWidth 20) [first; second] (s, 0%Z)
  = ({| donePages := donePages s0;
        currentPage := currentPage s0 ++ entry 0%Z first ++ entry 1%Z second;
        currentY := currentY s0 - 20 |}, 0%Z)
  /\ bottom margins <= currentY s0 - 20
  /\ (forall cat,
        0 <= percent cat <= 100 -> 80 <= colWidth ->
        0 <= percent cat / 100 * (colWidth - 80) <= colWidth - 80).
Proof.
  intros Hpage H1 H2 s0 entry.
  assert (Hs0 : bottom margins <= currentY s0 - 20).
  { unfold s0, addPageIfNeeded.
    destruct (Qltb_cases (currentY s - 20) (bottom margins))
      as [[E H] | [E H]]; rewrite E; cbn [snd addNewPage currentY]; lra. }
  split; [|split; [exact Hs0|]].
  - cbn [fold_left]. unfold drawCategory at 2.
    destruct (Qeq_bool (percent first) 0) eqn:E1;
      [apply Qeq_bool_iff in E1; contradiction|].
    change (0 + 1 =? 2)%Z with false. cbv iota.
    unfold drawCategory.
    destruct (Qeq_bool (percent second) 0) eqn:E2;
      [apply Qeq_bool_iff in E2; contradiction|].
    change (0 + 1 + 1 =? 2)%Z with true. cbv iota.
    assert (E0 : (if Qltb (currentY s - 20) (bottom margins)
                  then addNewPage s else s) = s0).
    { unfold s0, addPageIfNeeded. now destruct (Qltb _ _). }
    rewrite E0. cbn [draw currentY donePages currentPage].
    apply Qltb_ge in Hs0. rewrite Hs0.
    unfold moveDown, draw. cbn [currentY donePages currentPage].
    unfold entry, categoryText. rewrite <- !app_assoc. reflexivity.
  - intros cat [Hlo Hhi] Hcol.
    assert (Hp : 0 <= percent cat / 100 <= 1).
    { unfold Qdiv. change (/ 100) with (1 # 100). lra. }
    set (p := percent cat / 100) in *.
    split.
    + apply Qmult_le_0_compat; lra.
    + assert (H : 0 <= (1 - p) * (colWidth - 80))
        by (apply Qmult_le_0_compat; lra).
      lra.
Qed.

(** The images of a row are drawn in order; the one at index [k] of the
    row, counted from [j], starts [j + k] cells and gaps right of the
    left margin. *)
Lemma drawRowImages_positions (imageWidth imageHeight gap : Q)
  (rowImages : list Bytes) :
  forall j s s',
    drawRowImages imageWidth imageHeight gap rowImages j s = Ok s' ->
    exists cmds,
      s' = {| donePages := donePages s;
              currentPage := currentPage s ++ cmds;
              currentY := currentY s |}
      /\ List.length cmds = List.length rowImages
      /\ forall k cmd,
           nth_error cmds k = Some cmd ->
           exists bytes jpgImage,
             nth_error rowImages k = Some bytes
             /\ embedJpg bytes = Some jpgImage
             /\ cmd = drawImage_cmd jpgImage
                        (left margins
                         + inject_Z (j + Z.of_nat k) * (imageWidth + gap))
                        (currentY s - imageHeight) imageWidth imageHeight.
Proof.
  induction rowImages as [|bytes rest IH]; intros j s s' H;
    cbn [drawRowImages] in H.
  - injection H as <-. exists []. split; [|split; [reflexivity|]].
    + destruct s. cbn. now rewrite app_nil_r.
    + intros [|k] cmd Hk; discriminate.
  - unfold embed in H. destruct (embedJpg bytes) as [img|] eqn:E;
      cbn [bind] in H; [|discriminate].
    apply IH in H as [cmds [-> [Hlen Hnth]]].
    eexists (_ :: cmds). split; [|split].
    + cbn [draw donePages currentPage currentY]. now rewrite <- app_assoc.
    + cbn [List.length]. now rewrite Hlen.
    + intros [|k] cmd Hk; cbn [nth_error] in Hk |- *.
      * injection Hk as <-. exists bytes, img.
        change (Z.of_nat 0) with 0%Z. rewrite Z.add_0_r. now repeat split.
      * apply Hnth in Hk as [b [i [Hb [Hi ->]]]].
        exists b, i. repeat split; [exact Hb|exact Hi|].
        cbn [draw currentY].
        now replace (j + 1 + Z.of_nat k)%Z with (j + Z.of_nat (S k))%Z
          by lia.
Qed.

(** X15. In exact arithmetic, a row of the image grid is laid out from
    the left margin, the image at index [k] of the row [k] cells and
    gaps to the right, each the width of a cell.  With at least one column, a gap that is not
    negative and gaps that leave room for the cells, a row of at most
    [columns] images stays between the left and the right margin, and
    the last image of a full row ends at the right margin. *)
Theorem drawRow_between_margins (columns : Z) (gap : Q)
  (row : list Bytes) (s s' : PDFGenerator) :
  (0 < columns)%Z -> 0 <= gap ->
  gap * (inject_Z columns - 1) <= contentWidth ->
  (Z.of_nat (List.length row) <= columns)%Z ->
  let imageWidth := gridImageWidth columns gap in
  let imageHeight := gridImageHeight columns gap in
  drawRow imageWidth imageHeight gap row s = Ok s' ->
  exists cmds,
    currentPage s'
    = currentPage (snd (addPageIfNeeded (imageHeight + gap) s)) ++ cmds
    /\ List.length cmds = List.length row
    /\ forall k cmd,
         nth_error cmds k = Some cmd ->
         exists jpgImage x y,
           cmd = drawImage_cmd jpgImage x y imageWidth imageHeight
           /\ x == left margins
                   + inject_Z (Z.of_nat k) * (imageWidth + gap)
           /\ left margins <= x
           /\ x + imageWidth <= PAGE_WIDTH - right margins
           /\ ((Z.of_nat k + 1)%Z = columns ->
               x + imageWidth == PAGE_WIDTH - right margins).
Proof.
  intros Hc Hgap Hroom Hlen imageWidth imageHeight H.
  unfold drawRow in H.
  destruct (drawRowImages _ _ _ _ _ _) as [s2|] eqn:E; cbn [bind] in H;
    [|discriminate].
  injection H as <-.
  apply drawRowImages_positions in E as [cmds [-> [Hcmds Hnth]]].
  exists cmds. split; [reflexivity|]. split; [exact Hcmds|].
  intros k cmd Hk.
  assert (Hklt : (k < List.length row)%nat).
  { rewrite <- Hcmds. apply nth_error_Some. now rewrite Hk. }
  apply Hnth in Hk as [bytes [img [_ [_ ->]]]].
  do 3 eexists. split; [reflexivity|].
  change (0 + Z.of_nat k)%Z with (Z.of_nat k).
  assert (HC : 0 < inject_Z columns).
  { change 0 with (inject_Z 0). now rewrite <- Zlt_Qlt. }
  assert (Hw : inject_Z columns * imageWidth
               == contentWidth - gap * (inject_Z columns - 1)).
  { unfold imageWidth, gridImageWidth. field. lra. }
  assert (Hw0 : 0 <= imageWidth).
  { apply Qmult_le_l with (z := inject_Z columns); [exact HC|].
    rewrite Hw. lra. }
  assert (HK0 : 0 <= inject_Z (Z.of_nat k)).
  { change 0 with (inject_Z 0). rewrite <- Zle_Qle. lia. }
  assert (HK1 : inject_Z (Z.of_nat k) + 1 <= inject_Z columns).
  { change 1 with (inject_Z 1). rewrite <- inject_Z_plus, <- Zle_Qle. lia. }
  assert (Hp : 0 <= inject_Z (Z.of_nat k) * (imageWidth + gap))
    by (apply Qmult_le_0_compat; lra).
  assert (Hq : 0 <= (inject_Z columns - 1 - inject_Z (Z.of_nat k))
                    * (imageWidth + gap))
    by (apply Qmult_le_0_compat; lra).
  assert (Hcw : contentWidth == PAGE_WIDTH - left margins - right margins)
    by reflexivity.
  split; [reflexivity|]. split; [lra|]. split.
  - nra.
  - intros Hfull.
    assert (HK : inject_Z (Z.of_nat k) == inject_Z columns - 1).
    { rewrite <- Hfull, inject_Z_plus. change (inject_Z 1) with 1. lra. }
    rewrite HK. nra.
Qed.

(** ** Nothing is drawn below the bottom margin *)

Lemma draws_above_refl (s : PDFGenerator) : draws_above s s.
Proof. exists []. now rewrite app_nil_r. Qed.

Lemma draws_above_trans (s1 s2 s3 : PDFGenerator) :
  draws_above s1 s2 -> draws_above s2 s3 -> draws_above s1 s3.
Proof.
  intros [c1 [E1 F1]] [c2 [E2 F2]]. exists (c1 ++ c2). split.
  - now rewrite E2, E1, app_assoc.
  - now apply Forall_app.
Qed.

Lemma draws_above_silent (s s' : PDFGenerator) :
  drawn s' = drawn s -> draws_above s s'.
Proof. intros E. exists []. now rewrite app_nil_r. Qed.

Lemma draws_above_draw (c : DrawCmd) (s : PDFGenerator) :
  above_bottom_margin c -> draws_above s (draw c s).
Proof.
  intros H. exists [c]. split; [apply drawn_draw | now constructor].
Qed.

(** After the reservation of a height that an empty page can hold, the
    height is free above the bottom margin. *)
Lemma addPageIfNeeded_room (h : Q) (s : PDFGenerator) :
  h <= contentHeight ->
  bottom margins <= currentY (snd (addPageIfNeeded h s)) - h.
Proof.
  unfold addPageIfNeeded, contentHeight. intros Hh.
  destruct (Qltb_cases (currentY s - h) (bottom margins))
    as [[E H] | [E H]]; rewrite E; cbn [snd addNewPage currentY]; lra.
Qed.

Lemma page_check (h : Q) (s : PDFGenerator) :
  (if Qltb (currentY s - h) (bottom margins) then addNewPage s else s)
  = snd (addPageIfNeeded h s).
Proof. unfold addPageIfNeeded. now destruct (Qltb _ _). Qed.

Lemma draws_above_drawTextLine (x maxWidth : Q) (font : Font)
  (fontSize : Q) (color : RGB.t) (align : jsstring) (actualLineHeight : Q)
  (s : PDFGenerator) (line : jsstring) :
  actualLineHeight <= contentHeight -> fontSize <= actualLineHeight ->
  draws_above s
    (drawTextLine x maxWidth font fontSize color align actualLineHeight s
       line).
Proof.
  intros Hfit Hsize. unfold drawTextLine. rewrite page_check.
  pose proof (addPageIfNeeded_room actualLineHeight s Hfit) as Hroom.
  set (s1 := snd (addPageIfNeeded actualLineHeight s)) in *.
  apply draws_above_trans with s1;
    [apply draws_above_silent, drawn_addPageIfNeeded|].
  eapply draws_above_trans; [|apply draws_above_silent, drawn_moveDown].
  apply draws_above_draw. cbn [above_bottom_margin]. lra.
Qed.

Lemma draws_above_drawLines (x maxWidth : Q) (font : Font)
  (fontSize : Q) (color : RGB.t) (align : jsstring) (actualLineHeight : Q)
  (lines : list jsstring) :
  actualLineHeight <= contentHeight -> fontSize <= actualLineHeight ->
  forall s,
    draws_above s
      (fold_left
         (drawTextLine x maxWidth font fontSize color align actualLineHeight)
         lines s).
Proof.
  intros Hfit Hsize.
  induction lines as [|line rest IH]; intros s; cbn [fold_left].
  - apply draws_above_refl.
  - eapply draws_above_trans; [|apply IH].
    now apply draws_above_drawTextLine.
Qed.

Lemma drawn_startFreshIfOrphan (totalHeight actualLineHeight : Q)
  (s : PDFGenerator) :
  drawn (startFreshIfOrphan totalHeight actualLineHeight s) = drawn s.
Proof.
  unfold startFreshIfOrphan.
  destruct (Qltb _ _); [|reflexivity].
  destruct (linesOnCurrentPage_lt_2 _ _);
    [apply drawn_addNewPage | reflexivity].
Qed.

Lemma draws_above_drawWrappedText (text : option jsstring) (x maxWidth : Q)
  (options : Options.t) (s : PDFGenerator) :
  room_to_draw (op_drawWrappedText text x maxWidth options) ->
  draws_above s (snd (drawWrappedText text x maxWidth options s)).
Proof.
  intros [Hfit Hsize]. specialize (Hfit eq_refl) as [_ Hfit].
  cbn [draws_within_height] in Hsize.
  unfold drawWrappedText.
  destruct text as [text|]; [|apply draws_above_refl].
  destruct (negb (truthy text) || streq (trim text) [])%bool; cbn [snd];
    [apply draws_above_refl|].
  eapply draws_above_trans;
    [apply draws_above_silent, drawn_startFreshIfOrphan|].
  now apply draws_above_drawLines.
Qed.

Lemma draws_above_drawHeading (text : jsstring) (level : Z)
  (s : PDFGenerator) :
  heights_fit (op_drawHeading text level) ->
  draws_above s (drawHeading text level s).
Proof.
  cbn [heights_fit]. intros [_ Hfit]. unfold drawHeading.
  destruct (Z.eqb level 1);
    apply addPageIfNeeded_room with (s := s) in Hfit;
    set (s1 := snd (addPageIfNeeded _ s)) in *;
    (apply draws_above_trans with s1;
     [apply draws_above_silent, drawn_addPageIfNeeded|]);
    (eapply draws_above_trans; [|apply draws_above_silent, drawn_moveDown]);
    (eapply draws_above_trans; [apply draws_above_silent, drawn_moveDown|]);
    apply draws_above_draw; cbn [above_bottom_margin moveDown currentY];
    lra.
Qed.

Lemma draws_above_drawLine (s : PDFGenerator) :
  heights_fit op_drawLine -> draws_above s (drawLine s).
Proof.
  cbn [heights_fit]. intros [_ Hfit]. unfold drawLine.
  apply addPageIfNeeded_room with (s := s) in Hfit.
  set (s1 := snd (addPageIfNeeded _ s)) in *.
  apply draws_above_trans with s1;
    [apply draws_above_silent, drawn_addPageIfNeeded|].
  eapply draws_above_trans; [|apply draws_above_silent, drawn_moveDown].
  eapply draws_above_trans; [apply draws_above_silent, drawn_moveDown|].
  apply draws_above_draw. cbn [above_bottom_margin moveDown currentY].
  split; lra.
Qed.

Lemma draws_above_drawField (label value : jsstring) (s : PDFGenerator) :
  heights_fit (op_drawField label value) ->
  draws_above s (drawField label value s).
Proof.
  cbn [heights_fit]. intros [[H0 Hfit] Hvalue]. unfold drawField.
  pose proof (addPageIfNeeded_room _ s Hfit) as Hroom.
  set (s1 := snd (addPageIfNeeded _ s)) in *.
  apply draws_above_trans with s1;
    [apply draws_above_silent, drawn_addPageIfNeeded|].
  lazymatch goal with
  | |- context [draw (drawText_cmd (label ++ lit ": ") ?a ?b ?c ?d ?e) s1] =>
      set (c1 := drawText_cmd (label ++ lit ": ") a b c d e)
  end.
  apply draws_above_trans with (draw c1 s1);
    [apply draws_above_draw; cbn [c1 above_bottom_margin]; lra|].
  destruct (Qle_bool _ _).
  - eapply draws_above_trans; [|apply draws_above_silent, drawn_moveDown].
    apply draws_above_draw. cbn [above_bottom_margin draw currentY]. lra.
  - eapply draws_above_trans; [apply draws_above_silent, drawn_moveDown|].
    apply draws_above_drawWrappedText. split; [intros _; exact Hvalue|].
    cbn [draws_within_height Options.none Options.fontSize
           Options.lineHeight or_default].
    lra.
Qed.

Lemma draws_above_drawImage (imageBytes : Bytes) (maxWidth : Q)
  (maxHeight : option Q) (s : PDFGenerator) (r : Q * PDFGenerator) :
  heights_fit (op_drawImage imageBytes maxWidth maxHeight) ->
  drawImage imageBytes maxWidth maxHeight s = Ok r ->
  draws_above s (snd r).
Proof.
  cbn [heights_fit]. unfold drawImage, embed. intros Hfit H.
  destruct (embedJpg imageBytes) as [img|]; cbn [bind] in H; [|discriminate].
  destruct (drawImage_size img maxWidth maxHeight) as [w h].
  cbn [snd] in Hfit. destruct Hfit as [H0 Hfit]. injection H as <-.
  cbn [snd].
  pose proof (addPageIfNeeded_room _ s Hfit) as Hroom.
  set (s1 := snd (addPageIfNeeded _ s)) in *.
  apply draws_above_trans with s1;
    [apply draws_above_silent, drawn_addPageIfNeeded|].
  eapply draws_above_trans; [|apply draws_above_silent, drawn_moveDown].
  apply draws_above_draw. cbn [above_bottom_margin]. lra.
Qed.

Lemma draws_above_drawRow (imageWidth imageHeight gap : Q)
  (row : list Bytes) (s s' : PDFGenerator) :
  imageHeight + gap <= contentHeight -> 0 <= gap ->
  drawRow imageWidth imageHeight gap row s = Ok s' -> draws_above s s'.
Proof.
  intros Hfit Hgap H. unfold drawRow in H.
  pose proof (addPageIfNeeded_room _ s Hfit) as Hroom.
  set (s1 := snd (addPageIfNeeded _ s)) in *.
  destruct (drawRowImages _ _ _ _ _ _) as [s2|] eqn:E; cbn [bind] in H;
    [|discriminate].
  injection H as <-.
  apply drawRowImages_spec in E as [cmds [-> Hall]].
  apply draws_above_trans with s1;
    [apply draws_above_silent, drawn_addPageIfNeeded|].
  eapply draws_above_trans; [|apply draws_above_silent, drawn_moveDown].
  exists cmds. split.
  - unfold drawn, pages. cbn [donePages currentPage].
    rewrite !concat_app. cbn [List.concat].
    now rewrite !app_nil_r, app_assoc.
  - clear -Hall Hroom Hgap. induction Hall as [|b c bs cs Hc _ IH];
      constructor; [|exact IH].
    destruct Hc as [img [x [_ ->]]]. cbn [above_bottom_margin]. lra.
Qed.

Lemma draws_above_gridLoop (imageWidth imageHeight gap : Q) (columns : Z)
  (images : list Bytes) :
  imageHeight + gap <= contentHeight -> 0 <= gap ->
  forall col rowImages s s',
    gridLoop imageWidth imageHeight gap columns images col rowImages s
    = Ok s' ->
    draws_above s s'.
Proof.
  intros Hfit Hgap.
  induction images as [|image rest IH]; intros col rowImages s s' H;
    cbn [gridLoop] in H.
  - injection H as <-. apply draws_above_refl.
  - destruct (Z.eqb (col + 1) columns
              || match rest with [] => true | _ => false end)%bool.
    + destruct (drawRow _ _ _ _ _) as [s1|] eqn:E; cbn [bind] in H;
        [|discriminate].
      eapply draws_above_trans;
        [eapply draws_above_drawRow; [exact Hfit|exact Hgap|exact E]|].
      eapply IH; exact H.
    + eapply IH; exact H.
Qed.

Lemma draws_above_perform (op : DrawOp) (s s' : PDFGenerator) :
  room_to_draw op -> perform op s = Ok s' -> draws_above s s'.
Proof.
  intros Hroom H. destruct op; cbn [perform] in H.
  - injection H as <-. apply draws_above_drawHeading. now apply Hroom.
  - injection H as <-. apply draws_above_drawField. now apply Hroom.
  - injection H as <-. now apply draws_above_drawWrappedText.
  - injection H as <-. apply draws_above_drawLine. now apply Hroom.
  - destruct (drawImage imageBytes maxWidth maxHeight s) as [r|] eqn:E;
      cbn [bind] in H; [|discriminate].
    injection H as <-. eapply draws_above_drawImage; [|exact E].
    now apply Hroom.
  - destruct Hroom as [Hfit Hgap]. specialize (Hfit eq_refl) as [_ Hfit].
    cbn [draws_within_height] in Hgap. unfold drawImageGrid in H.
    destruct images as [|image rest].
    + injection H as <-. apply draws_above_refl.
    + eapply draws_above_gridLoop; [exact Hfit|exact Hgap|exact H].
  - injection H as <-. apply draws_above_silent, drawn_moveDown.
Qed.

(** X16. Whatever a sequence of these operations draws lies above the
    bottom margin (the baseline of a text, the lower edge of an image,
    a rule), from any state and however often [addSpace] has moved the
    cursor below the margin in between: every operation that draws
    reserves its height first.  It is enough that the reserved heights
    fit an empty page, that a line of text is not lower than its font
    size, and that the gap of a grid is not negative. *)
Theorem nothing_drawn_below_bottom_margin (ops : list DrawOp)
  (s s' : PDFGenerator) :
  Forall room_to_draw ops ->
  performAll ops s = Ok s' ->
  exists cmds,
    drawn s' = drawn s ++ cmds /\ Forall above_bottom_margin cmds.
Proof.
  intros Hops. revert s.
  induction Hops as [|op rest Hop _ IH]; intros s H; cbn [performAll] in H.
  - injection H as <-. apply draws_above_refl.
  - destruct (perform op s) as [s1|] eqn:E; cbn [bind] in H; [|discriminate].
    apply (draws_above_trans s s1 s').
    + now apply draws_above_perform with op.
    + now apply IH.
Qed.

End MoreProperties.

(** ** The distribution in the form *)

Lemma streq_iff (a b : jsstring) : streq a b = true <-> a = b.
Proof.
  revert b. induction a as [|x a IH]; intros [|y b]; cbn [streq];
    try (split; [discriminate | discriminate]); [now split|].
  rewrite andb_true_iff, N.eqb_eq, IH. split.
  - now intros [-> ->].
  - intros E. now injection E.
Qed.

Lemma clampedValue_range (parsed : JSNumber) :
  0 <= clampedValue parsed <= 100.
Proof.
  destruct parsed as [| | |q]; cbn [clampedValue]; try lra.
  cbv zeta. unfold Qgtb.
  destruct (Qeq_bool q 0);
    repeat match goal with
      | |- context [Qltb ?a ?b] =>
          lazymatch a with context [Qltb] => fail | _ => idtac end;
          lazymatch b with context [Qltb] => fail | _ => idtac end;
          let E := fresh "E" in
          destruct (Qltb a b) eqn:E;
          [apply Qltb_lt in E | apply Qltb_ge in E]
      end;
    lra.
Qed.

Lemma setPercent_labels (category : jsstring) (value : Q)
  (categories : list Category) :
  map label (setPercent category value categories) = map label categories.
Proof.
  induction categories as [|c rest IH]; cbn [setPercent]; [reflexivity|].
  destruct (streq (label c) category); cbn [map label]; [reflexivity|].
  now rewrite IH.
Qed.

Lemma setPercent_Forall (P : Category -> Prop) (category : jsstring)
  (value : Q) (categories : list Category) :
  (forall l, P (mkCategory l value)) ->
  Forall P categories -> Forall P (setPercent category value categories).
Proof.
  intros Hv. induction 1 as [|c rest Hc Hrest IH]; cbn [setPercent];
    [constructor|].
  destruct (streq (label c) category); constructor; auto.
Qed.

Lemma removeDistributionCategory_Forall (P : Category -> Prop)
  (l : jsstring) (categories : list Category) :
  Forall P categories -> Forall P (removeDistributionCategory l categories).
Proof.
  induction 1 as [|c rest Hc Hrest IH]; cbn [removeDistributionCategory];
    [constructor|].
  destruct (streq (label c) l); [exact Hrest | now constructor].
Qed.

Lemma removeDistributionCategory_incl (l : jsstring)
  (categories : list Category) :
  incl (removeDistributionCategory l categories) categories.
Proof.
  induction categories as [|c rest IH]; cbn [removeDistributionCategory];
    [apply incl_refl|].
  destruct (streq (label c) l); [apply incl_tl, incl_refl|].
  now apply incl_cons; [left | apply incl_tl].
Qed.

Lemma NoDup_snoc {A : Type} (l : list A) (x : A) :
  NoDup l -> ~ In x l -> NoDup (l ++ [x]).
Proof.
  induction 1 as [|y l Hy Hl IH]; intros Hx; cbn [app].
  - constructor; [intros []|constructor].
  - constructor.
    + rewrite in_app_iff. intros [H | [-> | []]]; [now apply Hy|].
      apply Hx. now left.
    + apply IH. intros H. apply Hx. now right.
Qed.

Section DistributionProperties.
Variable toLowerCase : jsstring -> jsstring.

Lemma distributionCall_range (categories : list Category)
  (c : DistributionCall) :
  Forall (fun c => 0 <= percent c <= 100) categories ->
  Forall (fun c => 0 <= percent c <= 100)
    (distributionCall toLowerCase categories c).
Proof.
  intros H. destruct c as [category parsed | l | l]; cbn [distributionCall].
  - apply setPercent_Forall; [|exact H].
    intros l. apply clampedValue_range.
  - unfold addDistributionCategory. destruct (existsb _ _); [exact H|].
    apply Forall_app. split; [exact H|].
    constructor; [cbn [percent]; lra | constructor].
  - now apply removeDistributionCategory_Forall.
Qed.

(** X17. Whatever is typed into the distribution inputs and whichever
    categories are added or removed, every percent of the report stays
    between 0 and 100; so the categories the review lists (percent above
    0) are exactly those the table of the PDF shows (percent not 0). *)
Theorem distribution_percents_in_range (calls : list DistributionCall) :
  Forall (fun c => 0 <= percent c <= 100) (categoriesAfter toLowerCase calls)
  /\ activeCategories (categoriesAfter toLowerCase calls)
     = shownCategories (categoriesAfter toLowerCase calls).
Proof.
  assert (H : Forall (fun c => 0 <= percent c <= 100)
                (categoriesAfter toLowerCase calls)).
  { unfold categoriesAfter.
    assert (H0 : Forall (fun c => 0 <= percent c <= 100) initialCategories)
      by (repeat constructor; cbn [percent]; lra).
    revert H0. generalize initialCategories.
    induction calls as [|c rest IH]; intros cats H0; cbn [fold_left];
      [exact H0|].
    apply IH. now apply distributionCall_range. }
  split; [exact H|].
  unfold activeCategories, shownCategories. apply filter_ext_in.
  intros c Hc. rewrite Forall_forall in H. apply H in Hc as [Hlo _].
  unfold Qgtb.
  destruct (Qeq_bool (percent c) 0) eqn:E; cbn [negb].
  - apply Qeq_bool_iff in E. apply Qltb_ge. lra.
  - apply Qltb_lt. apply Qeq_bool_neq in E. lra.
Qed.

Lemma lowerLabels_labels (categories : list Category) :
  lowerLabels toLowerCase categories
  = map toLowerCase (map label categories).
Proof. unfold lowerLabels. now rewrite map_map. Qed.

Lemma removeDistributionCategory_NoDup (l : jsstring)
  (categories : list Category) :
  NoDup (lowerLabels toLowerCase categories) ->
  NoDup (lowerLabels toLowerCase (removeDistributionCategory l categories)).
Proof.
  induction categories as [|c rest IH]; cbn [removeDistributionCategory];
    [trivial|].
  cbn [lowerLabels map]. intros H. inversion H as [|x xs Hx Hxs]; subst.
  destruct (streq (label c) l); [exact Hxs|].
  cbn [lowerLabels map]. constructor; [|now apply IH].
  intros Hin. apply Hx. apply in_map_iff in Hin as [c' [E Hc']].
  apply in_map_iff. exists c'. split; [exact E|].
  now apply (removeDistributionCategory_incl l rest).
Qed.

Lemma distributionCall_NoDup (categories : list Category)
  (c : DistributionCall) :
  NoDup (lowerLabels toLowerCase categories) ->
  NoDup (lowerLabels toLowerCase (distributionCall toLowerCase categories c)).
Proof.
  intros H. destruct c as [category parsed | l | l]; cbn [distributionCall].
  - unfold updateDistributionValue.
    now rewrite lowerLabels_labels, setPercent_labels, <- lowerLabels_labels.
  - unfold addDistributionCategory.
    destruct (existsb _ _) eqn:E; [exact H|].
    unfold lowerLabels. rewrite map_app. cbn [map label].
    apply NoDup_snoc; [exact H|].
    intros Hin. apply in_map_iff in Hin as [c [Ec Hc]].
    assert (Ex : existsb
                   (fun c => streq (toLowerCase (label c)) (toLowerCase l))
                   categories = true).
    { apply existsb_exists. exists c. split; [exact Hc|].
      now apply streq_iff. }
    congruence.
  - now apply removeDistributionCategory_NoDup.
Qed.

(** X18. No two categories of the report ever have the same label, not
    even up to case: [addDistributionCategory] adds nothing when the
    label is there already, and the other calls add no label.  This
    holds as long as lower-casing keeps the six labels of the loaded
    form apart. *)
Theorem distribution_labels_distinct (calls : list DistributionCall) :
  NoDup (lowerLabels toLowerCase initialCategories) ->
  NoDup (lowerLabels toLowerCase (categoriesAfter toLowerCase calls))
  /\ NoDup (map label (categoriesAfter toLowerCase calls)).
Proof.
  intros H0.
  assert (H : NoDup (lowerLabels toLowerCase
                       (categoriesAfter toLowerCase calls))).
  { unfold categoriesAfter. revert H0. generalize initialCategories.
    induction calls as [|c rest IH]; intros cats H0; cbn [fold_left];
      [exact H0|].
    apply IH. now apply distributionCall_NoDup. }
  split; [exact H|].
  rewrite lowerLabels_labels in H. now apply NoDup_map_inv in H.
Qed.

End DistributionProperties.

Lemma setPercent_absent (category : jsstring) (value : Q)
  (categories : list Category) :
  ~ In category (map label categories) ->
  map (fun c => if streq (label c) category
                then mkCategory (label c) value else c) categories
  = categories.
Proof.
  induction categories as [|c rest IH]; cbn [map]; [reflexivity|].
  intros H. destruct (streq (label c) category) eqn:E.
  - apply streq_iff in E. exfalso. apply H. now left.
  - rewrite IH; [reflexivity|]. intros Hin. apply H. now right.
Qed.

(** X19. When the labels are distinct, [updateDistributionValue], which
    changes the first category it finds with the label of the input,
    changes every category of that label: it gives it the typed value
    brought into the range from 0 to 100, and leaves the others, their
    number and their order as they are. *)
Theorem updateDistributionValue_sets_category (category : jsstring)
  (parsed : JSNumber) (categories : list Category) :
  NoDup (map label categories) ->
  updateDistributionValue category parsed categories
  = map (fun c => if streq (label c) category
                  then mkCategory (label c) (clampedValue parsed) else c)
      categories.
Proof.
  unfold updateDistributionValue.
  induction categories as [|c rest IH]; cbn [setPercent map];
    [reflexivity|].
  intros H. inversion H as [|x xs Hx Hxs]; subst.
  destruct (streq (label c) category) eqn:E.
  - apply streq_iff in E. subst category.
    now rewrite setPercent_absent.
  - now rewrite IH.
Qed.

(** * The properties on the concrete runtime *)

Section Witnesses.
#[local] Existing Instance sampleRuntime.

(** Closes a goal of decided comparisons between numbers. *)
Ltac decided :=
  vm_compute; repeat split; try reflexivity; try discriminate;
  intro; discriminate.



(** The same inside [drawActivity]: after a description of 44 lines the
    cursor is at 59; [addSpace 10] takes it to 49 and the label of the
    next section is drawn at 39, on the same page. *)
Lemma drawActivity_label_below_margin :
  exists s' page x y,
    drawActivity long_activity 1 init = Ok s'
    /\ nth_error (pages s') 1 = Some page
    /\ In (drawText_cmd (lit "Estimated Impact:") x y (Fonts.body fonts)
             HelveticaBold (Colors.secondary colors)) page
    /\ y == 39
    /\ y < bottom margins.
Proof.
  do 4 eexists. split; [vm_compute; reflexivity|].
  split; [vm_compute; reflexivity|].
  split.
  - vm_compute. repeat first [left; reflexivity | right].
  - split; reflexivity.
Qed.


Lemma addPageIfNeeded_spec_witness :
  (pages (snd (addPageIfNeeded 700 init)) = pages init ++ [[]]
   /\ currentY (snd (addPageIfNeeded 700 init)) = PAGE_HEIGHT - top margins)
  /\ addPageIfNeeded 44 init = (false, init).
Proof.
  split.
  - apply (proj1 (proj2 (addPageIfNeeded_spec 700 init))). reflexivity.
  - apply (proj2 (proj2 (addPageIfNeeded_spec 44 init))). decided.
Defined.

Lemma drawWrappedText_blank_witness :
  forallb is_space (lit "   ") = true
  /\ drawWrappedText (Some (lit "   ")) 60 502 Options.none (mkGen [] [] 51)
     = (0, mkGen [] [] 51).
Proof.
  split; [reflexivity|].
  apply drawWrappedText_blank. right. exists (lit "   ").
  split; reflexivity.
Defined.

Lemma wrapLines_widths_witness :
  wrapLines Helvetica 10 100 sample_text
  = [lit "aaaaaaaaaaaa"; lit "bbbbbbbbbbbb"; lit "cccccccccccc"]
  /\ (In (lit "aaaaaaaaaaaaaaaaaaaaaaaaa")
        (split_ws (lit "a aaaaaaaaaaaaaaaaaaaaaaaaa"))
      /\ existsb is_space (lit "aaaaaaaaaaaaaaaaaaaaaaaaa") = false).
Proof.
  split; [reflexivity|].
  apply (proj1 (wrapLines_widths Helvetica 10 100
                  (lit "a aaaaaaaaaaaaaaaaaaaaaaaaa"))).
  - vm_compute. right. now left.
  - reflexivity.
Defined.

(** Two lines fit below a cursor at 80 and three do not: the first two
    go on the page and the third on the next one. *)
Lemma drawWrappedText_page_breaks_witness :
  let this := mkGen [] [] 80 in
  let result :=
    snd (drawWrappedText (Some sample_text) 50 100 Options.none this) in
  exists l1 l2 x1 x2 cmds extra,
    firstn 2 (wrapLines Helvetica (Fonts.body fonts) 100 sample_text)
    = [l1; l2]
    /\ donePages result
       = donePages this
           ++ (currentPage this
                 ++ drawText_cmd l1 x1 (currentY this - Fonts.body fonts)
                      (Fonts.body fonts) Helvetica (Colors.text colors)
                 :: drawText_cmd l2 x2
                      (currentY this - Fonts.body fonts * 1.3
                       - Fonts.body fonts)
                      (Fonts.body fonts) Helvetica (Colors.text colors)
                 :: cmds)
           :: extra.
Proof.
  refine (proj2 (proj2 (proj2
            (drawWrappedText_page_breaks sample_text 50 100 Options.none
               (mkGen [] [] 80) _ _))) _ _).
  - reflexivity.
  - reflexivity.
  - reflexivity.
  - decided.
Defined.


Lemma drawImageGrid_rows_witness :
  map (@List.length Bytes) (gridRows 2 seven_photos 0 []) = [2; 2; 2; 1]%nat
  /\ drawImageGrid seven_photos 2 10 init
     = drawRows (gridImageWidth 2 10) (gridImageHeight 2 10) 10
         (gridRows 2 seven_photos 0 []) init.
Proof.
  assert (Hc : (1 <= 2)%Z) by lia.
  destruct (drawImageGrid_rows seven_photos 2 10 init Hc)
    as [Hrows [_ [_ [_ [Hseven _]]]]].
  split; [apply Hseven; reflexivity | exact Hrows].
Defined.

Lemma drawActivity_fresh_page_witness :
  exists s1 s2,
    drawActivity sample_activity1 1 init = Ok s1
    /\ drawActivity sample_activity2 2 s1 = Ok s2
    /\ (exists added1, added1 <> [] /\ pages s1 = pages init ++ added1)
    /\ (exists added2, added2 <> [] /\ pages s2 = pages s1 ++ added2)
    /\ (forall k,
          ~ (nth_error (pages s1) k <> nth_error (pages init) k
             /\ nth_error (pages s2) k <> nth_error (pages s1) k)).
Proof.
  destruct (drawActivity sample_activity1 1 init) as [s1|] eqn:E1;
    [|vm_compute in E1; discriminate].
  destruct (drawActivity sample_activity2 2 s1) as [s2|] eqn:E2.
  - exists s1, s2. split; [reflexivity|]. split; [exact E2|].
    exact (drawActivity_fresh_page _ _ _ _ _ _ _ E1 E2).
  - exfalso. vm_compute in E1. injection E1 as <-.
    vm_compute in E2. discriminate.
Defined.

(** With images that decode, [generate] gives a document: here the
    first page and one page for each activity. *)
Lemma generate_sample_report :
  exists document,
    generate (Some photo16x9) sample_report = Ok document
    /\ List.length document = 3%nat.
Proof. eexists. split; vm_compute; reflexivity. Qed.


Lemma sanitize_idempotent_and_filename_example_witness :
  sanitize (sanitize (lit "O'Brien  Smith")) = sanitize (lit "O'Brien  Smith")
  /\ generateFilename (lit "2025/2026") (lit "Mary Ann" ++ lit " " ++ lit "Lee")
     = lit "Cultural_Activities_Report_" ++ sanitize (lit "2025/2026")
         ++ lit "_" ++ sanitize (lit "Lee") ++ lit ".pdf".
Proof.
  destruct sanitize_idempotent_and_filename_example as [Hidem [_ Hlast]].
  split; [apply Hidem|].
  apply Hlast; reflexivity.
Defined.

End Witnesses.

(** * The further properties on the concrete runtime *)

Section MoreWitnesses.
#[local] Existing Instance sampleRuntime.

Ltac decided' :=
  vm_compute; repeat split; try reflexivity; try discriminate;
  intro; discriminate.

Lemma generateFilename_blank_name_witness :
  generateFilename (lit "2025-2026") (lit "  ")
  = lit "Cultural_Activities_Report_" ++ sanitize (lit "2025-2026")
      ++ lit "_Unknown.pdf".
Proof. apply generateFilename_blank_name. reflexivity. Defined.

(** A photo of 4000 by 3000 keeps its width and loses 375 rows at the
    top and at the bottom. *)
Lemma sourceCrop_inside_and_16_9_witness :
  let crop := ImageJs.sourceCrop 4000 3000 in
  ImageJs.srcWidth crop / ImageJs.srcHeight crop == 16 / 9
  /\ ImageJs.srcWidth crop == 4000 /\ ImageJs.srcHeight crop == 2250
  /\ ImageJs.srcX crop == 0 /\ ImageJs.srcY crop == 375.
Proof.
  assert (H : 0 < 4000 /\ 0 < 3000) by (split; reflexivity).
  destruct H as [Hw Hh].
  split; [exact (proj1 (sourceCrop_inside_and_16_9 4000 3000 Hw Hh))|].
  repeat split; reflexivity.
Defined.

Lemma drawImage_size_within_bounds_witness :
  fst (drawImage_size (mkImage 30 40) 512 (Some 250)) <= 512
  /\ snd (drawImage_size (mkImage 30 40) 512 (Some 250)) <= 250.
Proof.
  assert (H : 0 < width (mkImage 30 40) /\ 0 < height (mkImage 30 40)
              /\ 0 < 512 /\ 0 < 250) by (repeat split; reflexivity).
  destruct H as [Hw [Hh [Hm Hmh]]].
  destruct (drawImage_size_within_bounds (mkImage 30 40) 512 (Some 250)
              Hw Hh Hm) as [Hwidth [Hheight _]].
  split; [exact Hwidth|].
  exact (proj1 (Hheight 250 eq_refl Hmh)).
Defined.

Lemma drawLogo_fits_box_witness :
  exists w h,
    drawLogo logoPng init
    = Ok (draw (drawImage_cmd (mkImage 200 50) (left margins)
                  (currentY init - h) w h) init)
    /\ 0 < w <= 150 /\ 0 < h <= 60
    /\ w / h == width (mkImage 200 50) / height (mkImage 200 50)
    /\ (w = 150 \/ h = 60).
Proof.
  apply (drawLogo_fits_box logoPng (mkImage 200 50) init).
  - left. reflexivity.
  - reflexivity.
  - reflexivity.
Defined.

Lemma wrapLines_count_witness :
  (1 <= List.length (wrapLines Helvetica (Fonts.body fonts) 100 sample_text)
   <= List.length (split_ws sample_text))%nat.
Proof.
  exact (proj1 (wrapLines_count sample_text 50 100 Options.none init
                  eq_refl)).
Defined.

Lemma wrapLines_greedy_witness :
  exists word more,
    In word (split_ws sample_text) /\ truthy word = true
    /\ lit "bbbbbbbbbbbb" = word ++ more
    /\ 100 < widthOfTextAtSize Helvetica
               (lit "aaaaaaaaaaaa" ++ lit " " ++ word) 10.
Proof.
  exact (wrapLines_greedy Helvetica 10 100 sample_text []
           (lit "aaaaaaaaaaaa") (lit "bbbbbbbbbbbb") [lit "cccccccccccc"]
           eq_refl).
Defined.

(** Three lines of 13 points fit below the cursor of a new document. *)
Lemma drawWrappedText_fitting_block_witness :
  exists cmds,
    donePages (snd (drawWrappedText (Some sample_text) 50 100 Options.none
                      init)) = []
    /\ currentPage (snd (drawWrappedText (Some sample_text) 50 100
                           Options.none init)) = cmds
    /\ List.length cmds = 3%nat.
Proof.
  assert (H1 : 0 <= Fonts.body fonts * 1.3) by decided'.
  assert (H2 : bottom margins
               <= currentY init
                  - inject_Z
                      (Z.of_nat
                         (List.length
                            (wrapLines Helvetica (Fonts.body fonts) 100
                               sample_text)))
                    * (Fonts.body fonts * 1.3)) by decided'.
  destruct (drawWrappedText_fitting_block sample_text 50 100 Options.none
              init eq_refl H1 H2) as [cmds [Hdone [Hpage [_ [Hlen _]]]]].
  exists cmds. split; [exact Hdone|]. split; [exact Hpage|exact Hlen].
Defined.

Lemma pages_only_grow_witness :
  exists s',
    callAll [m_drawTitle (lit "Report"); m_addNewPage; m_drawLine;
             m_drawActivity sample_activity1 0] init = Ok s'
    /\ (List.length (pages init) <= List.length (pages s'))%nat.
Proof.
  eexists. split; [vm_compute; reflexivity|].
  refine (proj2 (proj2 (pages_only_grow
                          [m_drawTitle (lit "Report"); m_addNewPage;
                           m_drawLine; m_drawActivity sample_activity1 0]
                          init _ _))).
  vm_compute. reflexivity.
Defined.

Lemma generate_page_count_witness :
  exists document,
    generate (Some photo16x9) sample_report = Ok document
    /\ (1 + List.length (activities sample_report)
        <= List.length document)%nat.
Proof.
  eexists. split; [vm_compute; reflexivity|].
  refine (generate_page_count (Some photo16x9) sample_report _ _).
  vm_compute. reflexivity.
Defined.

Lemma distribution_row_on_one_page_witness :
  snd (fold_left (drawCategory 256 20)
         [mkCategory (lit "American") 60; mkCategory (lit "Other") 40]
         (init, 0%Z)) = 0%Z
  /\ bottom margins <= currentY (snd (addPageIfNeeded 20 init)) - 20.
Proof.
  assert (H0 : bottom margins <= PAGE_HEIGHT - top margins - 20)
    by decided'.
  assert (H1 : ~ percent (mkCategory (lit "American") 60) == 0)
    by (intro H; discriminate H).
  assert (H2 : ~ percent (mkCategory (lit "Other") 40) == 0)
    by (intro H; discriminate H).
  destruct (distribution_row_on_one_page 256 init
              (mkCategory (lit "American") 60) (mkCategory (lit "Other") 40)
              H0 H1 H2) as [Hrow [Hroom _]].
  split; [exact (f_equal snd Hrow) | exact Hroom].
Defined.

Lemma drawRow_between_margins_witness :
  exists s' cmds,
    drawRow (gridImageWidth 2 10) (gridImageHeight 2 10) 10
      [photo16x9; photo16x9] init = Ok s'
    /\ currentPage s'
       = currentPage
           (snd (addPageIfNeeded (gridImageHeight 2 10 + 10) init)) ++ cmds
    /\ List.length cmds = 2%nat.
Proof.
  assert (E : exists s',
             drawRow (gridImageWidth 2 10) (gridImageHeight 2 10) 10
               [photo16x9; photo16x9] init = Ok s')
    by (eexists; vm_compute; reflexivity).
  destruct E as [s' E].
  assert (Hc : (0 < 2)%Z) by lia.
  assert (Hg : 0 <= 10) by decided'.
  assert (Hr : 10 * (inject_Z 2 - 1) <= contentWidth) by decided'.
  assert (Hl : (Z.of_nat (List.length [photo16x9; photo16x9]) <= 2)%Z)
    by (cbn; lia).
  destruct (drawRow_between_margins 2 10 [photo16x9; photo16x9] init s'
              Hc Hg Hr Hl E) as [cmds [Hpage [Hlen _]]].
  exists s', cmds. split; [exact E|]. split; [exact Hpage|exact Hlen].
Defined.

(** Also after [addSpace 700], which leaves the cursor at 42. *)
Lemma nothing_drawn_below_bottom_margin_witness :
  exists s' cmds,
    performAll (op_addSpace 700 :: sample_ops) init = Ok s'
    /\ drawn s' = drawn init ++ cmds
    /\ Forall above_bottom_margin cmds.
Proof.
  assert (E : exists s',
             performAll (op_addSpace 700 :: sample_ops) init = Ok s')
    by (eexists; vm_compute; reflexivity).
  destruct E as [s' E].
  assert (H : Forall room_to_draw (op_addSpace 700 :: sample_ops)).
  { unfold sample_ops.
    repeat (constructor; [split; [intros _; decided' | decided']|]).
    constructor. }
  destruct (nothing_drawn_below_bottom_margin _ init s' H E)
    as [cmds [Hdrawn Habove]].
  exists s', cmds. split; [exact E|]. split; [exact Hdrawn|exact Habove].
Defined.

Lemma distribution_labels_distinct_witness :
  NoDup (lowerLabels sample_toLowerCase
           (categoriesAfter sample_toLowerCase sample_calls))
  /\ NoDup (map label (categoriesAfter sample_toLowerCase sample_calls)).
Proof.
  apply distribution_labels_distinct.
  vm_compute.
  repeat (constructor; [cbn [In]; intuition discriminate|]).
  constructor.
Defined.

Lemma updateDistributionValue_sets_category_witness :
  updateDistributionValue (lit "French") (Finite 150) initialCategories
  = map (fun c => if streq (label c) (lit "French")
                  then mkCategory (label c) (clampedValue (Finite 150))
                  else c)
      initialCategories.
Proof.
  apply updateDistributionValue_sets_category.
  vm_compute.
  repeat (constructor; [cbn [In]; intuition discriminate|]).
  constructor.
Defined.

End MoreWitnesses.
